(** * dirwatcher: a shallow embedding of [dirwatcher.py]

    The program polls a directory, scans the files it lists for a keyword and
    keeps, per file, the pair (last reported line, last seen size) in a Python
    dictionary that is shared between [main], [watch_dir] and [scan_file].

    The embedding keeps what the claims about the program depend on:
    - dictionaries are objects in a store, addressed by reference, because
      the idiom [if not history: history = {}] decides whether callee and
      caller mutate the same object;
    - a dictionary keeps its insertion order, because [watch_dir] iterates
      over it while deleting from it;
    - the file system is observed through system calls whose answers may
      change from one call to the next, and every call can raise;
    - log records, sleeps and file system calls are collected, in order, as
      the effects of a run;
    - the signal handler runs between two system calls. *)

From Stdlib Require Import String Ascii List ZArith QArith Bool Arith Lia.
Import ListNotations.

Local Open Scope string_scope.
Local Open Scope Z_scope.

(** ** Values of the program *)

Inductive exn : Type :=
  | FileNotFoundError
  | PermissionError
  | NotADirectoryError
  | UnicodeDecodeError
  | OSError
  | KeyError
  | RuntimeError
  | ValueError
  | OverflowError
  | ZeroDivisionError
  | TypeError.

Inductive result (A : Type) : Type :=
  | Ok (a : A)
  | Raise (e : exn).

Arguments Ok {A} a.
Arguments Raise {A} e.

Inductive signal : Type := SIGINT | SIGTERM.

(** [signal.Signals(sig_num).name] *)
Definition signame (sg : signal) : string :=
  match sg with SIGINT => "SIGINT" | SIGTERM => "SIGTERM" end.

(** An [os.DirEntry]: [os.scandir] fills [path] with
    [os.path.join(scandir_path, name)]. *)
Record DirEntry : Type := mkEntry {
  name : string;
  path : string;
  is_dir : bool }.

(** ** Strings *)

(** [word in line] *)
Fixpoint str_in (word line : string) : bool :=
  String.prefix word line ||
  match line with
  | EmptyString => false
  | String _ rest => str_in word rest
  end.

(** [s.endswith(ext)] *)
Fixpoint endswith (s ext : string) : bool :=
  String.eqb s ext ||
  match s with
  | EmptyString => false
  | String _ rest => endswith rest ext
  end.

Definition startswith_sep (s : string) : bool :=
  match s with String "/"%char _ => true | _ => false end.

(** [os.path.join(a, b)] on POSIX, two components. *)
Definition join (a b : string) : string :=
  if startswith_sep b then b
  else if String.eqb a "" || endswith a "/" then a ++ b
  else a ++ "/" ++ b.

(** ** The history dictionary

    [history] maps a path to the tuple [(max_num, size)].  A Python [dict]
    iterates in insertion order; assigning to a key that is present keeps its
    place, assigning to a new key appends it. *)

Definition record : Type := (Z * Z)%type.
Definition dict : Type := list (string * record).

Definition keys (d : dict) : list string := map fst d.

Definition dict_mem (k : string) (d : dict) : bool :=
  existsb (String.eqb k) (keys d).

Fixpoint dict_get (k : string) (d : dict) : option record :=
  match d with
  | [] => None
  | (k', v) :: rest => if String.eqb k k' then Some v else dict_get k rest
  end.

Fixpoint dict_set (k : string) (v : record) (d : dict) : dict :=
  match d with
  | [] => [(k, v)]
  | (k', v') :: rest =>
      if String.eqb k k' then (k', v) :: rest else (k', v') :: dict_set k v rest
  end.

Fixpoint dict_remove (k : string) (d : dict) : dict :=
  match d with
  | [] => []
  | (k', v') :: rest =>
      if String.eqb k k' then rest else (k', v') :: dict_remove k rest
  end.

(** [d.update(other)] *)
Definition dict_merge (other d : dict) : dict :=
  fold_left (fun acc kv => dict_set (fst kv) (snd kv) acc) other d.

(** ** Observable effects *)

Inductive level : Type := DEBUG | INFO | WARNING | ERROR.

(** The facts each log call formats into its message. *)
Inductive msg : Type :=
  | MReceived (signal_name : string)
  | MScanning (file : DirEntry) (word : string)
  | MNewFile (file_name curdir : string)
  | MFound (word file_name : string) (i : Z)
  | MScanningDir (abs_directory : string)
  | MRemoved (file : string)
  | MDirNotFound (directory : string)
  | MExn (e : exn)
  | MBanner (text : string)
  | MUptime (elapsed : Z).

Inductive effect : Type :=
  | Log (l : level) (m : msg)
  | IsDir (p : string)
  | ScanDir (p : string)
  | Stat (p : string)
  | Open (p : string)
  | Sleep (secs : Z).

(** ** The outside world

    One [FS] is what the operating system answers at one instant.  The world
    is a sequence of such instants; every system call consumes one.
    [nanosleep secs] is the answer to a sleep of [secs] seconds: the kernel
    refuses ([OSError]) a sleep whose end lies beyond the range of its
    clock. *)

Record FS : Type := mkFS {
  isdir : string -> bool;
  listdir : string -> result (list (string * bool));
  st_size : string -> result Z;
  readlines : string -> result (list string);
  abspath : string -> result string;
  time : Z;
  pending : option signal;
  nanosleep : Z -> result unit }.

Definition ref : Type := nat.

(** The process state: the instant of the next system call, the global
    [exit_flag], and the store of dictionary objects. *)
Record State : Type := mkState {
  clock : nat;
  exit_flag : bool;
  heap : list dict }.

(** What running a computation from a state yields: its value or the
    exception it raised, the state it left, and the effects it performed. *)
Record Run (A : Type) : Type := mkRun {
  out : result A;
  final : State;
  effects : list effect }.

Arguments mkRun {A} out final effects.
Arguments out {A} r.
Arguments final {A} r.
Arguments effects {A} r.

Definition M (A : Type) : Type := State -> Run A.

Definition ret {A} (a : A) : M A := fun s => mkRun (Ok a) s [].

Definition raise {A} (e : exn) : M A := fun s => mkRun (Raise e) s [].

Definition bind {A B} (m : M A) (f : A -> M B) : M B := fun s =>
  let r := m s in
  match out r with
  | Ok a =>
      let r' := f a (final r) in
      mkRun (out r') (final r') (effects r ++ effects r')
  | Raise e => mkRun (Raise e) (final r) (effects r)
  end.

(** [try: m except Exception as e: handler(e)] *)
Definition try_except {A} (m : M A) (handler : exn -> M A) : M A := fun s =>
  let r := m s in
  match out r with
  | Ok a => r
  | Raise e =>
      let r' := handler e (final r) in
      mkRun (out r') (final r') (effects r ++ effects r')
  end.

Declare Scope py_scope.
Delimit Scope py_scope with py.
Notation "x <- m ;; k" := (bind m (fun x => k))
  (at level 61, m at next level, right associativity) : py_scope.
Notation "m ;; k" := (bind m (fun _ => k))
  (at level 61, right associativity) : py_scope.
Local Open Scope py_scope.

Definition lift {A} (r : result A) : M A :=
  match r with Ok a => ret a | Raise e => raise e end.

Definition emit (e : effect) : M unit := fun s => mkRun (Ok tt) s [e].

Definition log (l : level) (m : msg) : M unit := emit (Log l m).

Definition get_exit_flag : M bool := fun s => mkRun (Ok (exit_flag s)) s [].

Definition set_exit_flag (b : bool) : M unit := fun s =>
  mkRun (Ok tt) (mkState (clock s) b (heap s)) [].

(** *** The store *)

Fixpoint replace_nth {A} (n : nat) (x : A) (l : list A) : list A :=
  match l, n with
  | [], _ => []
  | _ :: t, O => x :: t
  | h :: t, S n' => h :: replace_nth n' x t
  end.

(** [{}] *)
Definition new_dict : M ref := fun s =>
  mkRun (Ok (length (heap s))) (mkState (clock s) (exit_flag s) (heap s ++ [[]])) [].

Definition deref (r : ref) : M dict := fun s => mkRun (Ok (nth r (heap s) [])) s [].

Definition store (r : ref) (d : dict) : M unit := fun s =>
  mkRun (Ok tt) (mkState (clock s) (exit_flag s) (replace_nth r d (heap s))) [].

(** [k in d] *)
Definition contains (r : ref) (k : string) : M bool :=
  d <- deref r ;; ret (dict_mem k d).

(** [d[k]] *)
Definition getitem (r : ref) (k : string) : M record :=
  d <- deref r ;;
  match dict_get k d with
  | Some v => ret v
  | None => raise KeyError
  end.

(** [d[k] = v], also [d.update({k: v})] *)
Definition setitem (r : ref) (k : string) (v : record) : M unit :=
  d <- deref r ;; store r (dict_set k v d).

(** [d.pop(k)] *)
Definition pop (r : ref) (k : string) : M unit :=
  d <- deref r ;;
  if dict_mem k d then store r (dict_remove k d) else raise KeyError.

(** [d.update(other)]; updating a dictionary with itself does nothing. *)
Definition update (r other : ref) : M unit :=
  if Nat.eqb r other then ret tt
  else o <- deref other ;; d <- deref r ;; store r (dict_merge o d).

(** [if not history: history = {}]: [None] and the empty dictionary are both
    falsy, and both are replaced by a new object. *)
Definition or_new (history : option ref) : M ref :=
  match history with
  | None => new_dict
  | Some r =>
      d <- deref r ;;
      match d with
      | [] => new_dict
      | _ :: _ => ret r
      end
  end.

(** The [DirEntry] objects of a listing of [directory], given as names with
    their is-a-directory bits. *)
Definition entries (directory : string) (l : list (string * bool))
    : list DirEntry :=
  map (fun e => mkEntry (fst e) (join directory (fst e)) (snd e)) l.

(** ** The program *)

Section Program.

(** The answers of the operating system, instant by instant. *)
Variable world : nat -> FS.

(** [signal_handler(sig_num, frame)] *)
Definition signal_handler (sig_num : signal) : M unit :=
  log INFO (MReceived (signame sig_num)) ;;
  set_exit_flag true.

(** One system call: a signal that is pending at this instant is handled
    first, then the call sees the world of this instant. *)
Definition tick : M FS := fun s =>
  let w := world (clock s) in
  let s' := mkState (S (clock s)) (exit_flag s) (heap s) in
  match pending w with
  | Some sg => (signal_handler sg ;; ret w) s'
  | None => ret w s'
  end.

(** [os.path.isdir(p)] *)
Definition os_path_isdir (p : string) : M bool :=
  w <- tick ;; emit (IsDir p) ;; ret (isdir w p).

(** [os.path.abspath(p)] *)
Definition os_path_abspath (p : string) : M string :=
  w <- tick ;; lift (abspath w p).

(** [list(os.scandir(p))] *)
Definition os_scandir (p : string) : M (list DirEntry) :=
  w <- tick ;; emit (ScanDir p) ;;
  l <- lift (listdir w p) ;;
  ret (entries p l).

(** [os.stat(p).st_size] *)
Definition os_stat_size (p : string) : M Z :=
  w <- tick ;; emit (Stat p) ;; lift (st_size w p).

(** [with open(p, 'r') as f: ... list(f)] *)
Definition open_readlines (p : string) : M (list string) :=
  w <- tick ;; emit (Open p) ;; lift (readlines w p).

(** [time.time()] *)
Definition time_time : M Z :=
  w <- tick ;; ret (time w).

(** The longest sleep, in seconds, whose length in nanoseconds fits the
    64-bit integer in which [time.sleep] holds it. *)
Definition sleep_max : Z := 9223372036.

(** [time.sleep(secs)] for an integer [secs]: a length that does not fit
    raises [OverflowError], then a negative length raises [ValueError]; no
    system call is made in either case.  Otherwise the process sleeps, and
    the answer of the operating system decides whether the call returns. *)
Definition time_sleep (secs : Z) : M unit :=
  if (secs <? - sleep_max) || (sleep_max <? secs) then raise OverflowError
  else if secs <? 0 then raise ValueError
  else w <- tick ;; emit (Sleep secs) ;; lift (nanosleep w secs).

(** The body of [for j, line in enumerate(list(f))], from index [j] on:
    [i = j-1], and the test [i > max_num and word in line or j == 1]. *)
Fixpoint scan_lines (word file_name : string) (max_num j : Z)
    (lines : list string) : M Z :=
  match lines with
  | [] => ret max_num
  | line :: rest =>
      let i := j - 1 in
      if ((max_num <? i) && str_in word line) || (j =? 1) then
        log INFO (MFound word file_name i) ;;
        scan_lines word file_name i (j + 1) rest
      else
        scan_lines word file_name max_num (j + 1) rest
  end.

(** [scan_file] from its debug log on, [history] being the dictionary it
    works on.  The computation of [unchanged] yields [true] where the source
    returns early at the unchanged size. *)
Definition scan_file_body (file : DirEntry) (word : string) (history : ref)
    (curdir : string) : M ref :=
  log DEBUG (MScanning file word) ;;
  tracked <- contains history (path file) ;;
  unchanged <-
    (if tracked then
       rec <- getitem history (path file) ;;
       size <- os_stat_size (path file) ;;
       ret (snd rec =? size)
     else
       log INFO (MNewFile (name file) curdir) ;;
       size <- os_stat_size (path file) ;;
       setitem history (path file) (0, size) ;;
       ret false) ;;
  if unchanged then ret history
  else
    p <- os_path_abspath (path file) ;;
    lines <- open_readlines p ;;
    rec <- getitem history (path file) ;;
    max_num <- scan_lines word (name file) (fst rec) 0 lines ;;
    size <- os_stat_size (path file) ;;
    setitem history (path file) (max_num, size) ;;
    ret history.

(** [scan_file(file, word, history, curdir)] *)
Definition scan_file (file : DirEntry) (word : string) (history : option ref)
    (curdir : string) : M ref :=
  history <- or_new history ;;
  scan_file_body file word history curdir.

(** [for file in files: if not file.is_dir(): history.update(scan_file(...))] *)
Fixpoint scan_files (files : list DirEntry) (word : string) (history : ref)
    (directory : string) : M unit :=
  match files with
  | [] => ret tt
  | file :: rest =>
      (if negb (is_dir file) then
         r <- scan_file file word (Some history) directory ;;
         update history r
       else ret tt) ;;
      scan_files rest word history directory
  end.

(** [for k in d: body(k)].  The iterator remembers the size of the dictionary
    when the loop starts; every request for the next key, the last one
    included, first compares it with the current size and raises
    [RuntimeError] (dictionary changed size during iteration) when they
    differ.  [ks] are the keys not yet visited. *)
Fixpoint for_keys (d : ref) (used : nat) (ks : list string)
    (body : string -> M unit) : M unit :=
  now <- deref d ;;
  if negb (Nat.eqb (length now) used) then raise RuntimeError
  else
    match ks with
    | [] => ret tt
    | k :: rest => body k ;; for_keys d used rest body
    end.

Definition for_dict (d : ref) (body : string -> M unit) : M unit :=
  now <- deref d ;; for_keys d (length now) (keys now) body.

(** [for kill in to_kill: history.pop(kill)] *)
Fixpoint pop_all (history : ref) (to_kill : list string) : M unit :=
  match to_kill with
  | [] => ret tt
  | kill :: rest => pop history kill ;; pop_all history rest
  end.

(** The body of [for file in history] in [watch_dir]: [to_kill] is emptied at
    every turn and the entries it collects are popped within the turn. *)
Definition reconcile_body (history : ref) (files : list DirEntry)
    (file : string) : M unit :=
  to_kill <-
    (if negb (existsb (String.eqb file) (map path files)) then
       log INFO (MRemoved file) ;; ret [file]
     else ret []) ;;
  pop_all history to_kill.

Definition reconcile (history : ref) (files : list DirEntry) : M unit :=
  for_dict history (reconcile_body history files).

(** [if ext:] is false for [None] and for the empty string. *)
Definition list_files (directory : string) (ext : option string)
    : M (list DirEntry) :=
  match ext with
  | Some (String c e) =>
      l <- os_scandir directory ;;
      ret (filter (fun f => endswith (path f) (String c e)) l)
  | _ => os_scandir directory
  end.

(** [watch_dir] from [if os.path.isdir(directory):] on, [history] being the
    dictionary it works on. *)
Definition watch_dir_body (directory word : string) (ext : option string)
    (history : ref) (wait : Z) : M ref :=
  exists_ <- os_path_isdir directory ;;
  (if exists_ then
     abs <- os_path_abspath directory ;;
     log DEBUG (MScanningDir abs) ;;
     files <- list_files directory ext ;;
     scan_files files word history directory ;;
     reconcile history files
   else
     log WARNING (MDirNotFound directory) ;;
     time_sleep wait) ;;
  ret history.

(** [watch_dir(directory, word, ext, history, wait)] *)
Definition watch_dir (directory word : string) (ext : option string)
    (history : option ref) (wait : Z) : M ref :=
  history <- or_new history ;;
  watch_dir_body directory word ext history wait.

(** The parsed command line. *)
Record Args : Type := mkArgs {
  directory : string;
  extension : option string;
  interval : Z;
  magic : string }.

(** The [try] block of the poll loop; [wait] keeps its default of 5. *)
Definition poll (args : Args) (history : ref) : M unit :=
  dirpath <- os_path_abspath (directory args) ;;
  r <- watch_dir dirpath (magic args) (extension args) (Some history) 5 ;;
  update history r.

(** One turn of [while not exit_flag]: both handlers log the exception at
    error level; the sleep is outside the [try]. *)
Definition poll_iteration (args : Args) (history : ref) : M unit :=
  try_except (poll args history) (fun e => log ERROR (MExn e)) ;;
  time_sleep (interval args).

(** [while not exit_flag: ...], for at most [n] turns: [true] when the loop
    was left because the flag was set, [false] when [n] turns did not reach
    that point. *)
Fixpoint poll_loop (n : nat) (args : Args) (history : ref) : M bool :=
  flag <- get_exit_flag ;;
  if flag then ret true
  else
    match n with
    | O => ret false
    | S n' => poll_iteration args history ;; poll_loop n' args history
    end.

(** What [main] logs after the loop. *)
Definition shutdown (start_time : Z) : M unit :=
  log INFO (MBanner "Exiting") ;;
  now <- time_time ;;
  log INFO (MUptime (now - start_time)).

(** [main()] once the handlers are installed and the arguments parsed;
    [start_time] is the value of [time.time()] when the module was loaded. *)
Definition main (start_time : Z) (args : Args) (n : nat) : M bool :=
  log INFO (MBanner "Starting") ;;
  history <- new_dict ;;
  exited <- poll_loop n args history ;;
  if exited then shutdown start_time ;; ret true else ret false.

End Program.

(** The state in which [main] starts. *)
Definition init : State := mkState 0 false [].

(** ** Vocabulary of the statements *)

(** What a pending signal adds to the effects of a system call. *)
Definition sigfx (p : option signal) : list effect :=
  match p with
  | Some sg => [Log INFO (MReceived (signame sg))]
  | None => []
  end.

(** The flag after a system call made while [p] was pending. *)
Definition sigflag (p : option signal) (flag : bool) : bool :=
  match p with Some _ => true | None => flag end.

Definition is_read (e : effect) : bool :=
  match e with Open _ => true | _ => false end.

Definition is_match (e : effect) : bool :=
  match e with Log _ (MFound _ _ _) => true | _ => false end.

Definition is_discovery (e : effect) : bool :=
  match e with Log _ (MNewFile _ _) => true | _ => false end.

Definition is_removal (e : effect) : bool :=
  match e with Log _ (MRemoved _) => true | _ => false end.

Definition is_error (e : effect) : bool :=
  match e with Log ERROR _ => true | _ => false end.

(** The dictionary a [history] argument denotes in a state. *)
Definition dict_at (r : ref) (s : State) : dict := nth r (heap s) [].

Definition dict_of (history : option ref) (s : State) : dict :=
  match history with Some r => dict_at r s | None => [] end.

Definition visible (ext : option string) (f : DirEntry) : bool :=
  match ext with
  | Some (String c e) => endswith (path f) (String c e)
  | _ => true
  end.

(** ** Concrete worlds for the examples

    A directory [/d]; no signal is pending and [abspath] is the identity. *)

Definition quiet (files : list (string * bool)) (size : string -> result Z)
    (content : string -> result (list string)) : FS :=
  mkFS (fun p => String.eqb p "/d")
       (fun p => if String.eqb p "/d" then Ok files else Raise FileNotFoundError)
       size content (fun p => Ok p) 0 None (fun _ => Ok tt).

Definition app_log : DirEntry := mkEntry "app.log" "/d/app.log" false.

Definition three_lines : list string := ["a"; "ERROR b"; "c"].

Definition four_lines : list string := ["a"; "ERROR b"; "c"; "ERROR d"].

(** [/d] holds [app.log], 12 bytes, three lines. *)
Definition steady (_ : nat) : FS :=
  quiet [("app.log", false)] (fun _ => Ok 12) (fun _ => Ok three_lines).

(** A state in which [app.log] is tracked with size 12. *)
Definition tracked : State := mkState 0 false [[("/d/app.log", (0, 12))]].


(** The command line [--dir /d --magic ERROR]. *)
Definition watch_d : Args := mkArgs "/d" None 1 "ERROR".

(** [app.log] has three lines during the first poll (system calls 0 to 8,
    the last one being the sleep) and a fourth line afterwards. *)
Definition growing (t : nat) : FS :=
  if (t <? 9)%nat then
    quiet [("app.log", false)] (fun _ => Ok 12) (fun _ => Ok three_lines)
  else
    quiet [("app.log", false)] (fun _ => Ok 20) (fun _ => Ok four_lines).

(** [app.log] is listed and has a size, but may not be opened. *)
Definition unreadable (_ : nat) : FS :=
  quiet [("app.log", false)] (fun _ => Ok 12) (fun _ => Raise PermissionError).

(** [app.log] is listed with a new size and is gone when it is opened. *)
Definition vanishing (_ : nat) : FS :=
  quiet [("app.log", false)] (fun _ => Ok 20) (fun _ => Raise FileNotFoundError).

(** [/d] holds [a.txt]. *)
Definition with_txt (_ : nat) : FS :=
  quiet [("a.txt", false)] (fun _ => Ok 6) (fun _ => Ok ["ERROR"]).

(** [/d] is empty. *)
Definition emptied (_ : nat) : FS :=
  quiet [] (fun _ => Raise FileNotFoundError) (fun _ => Raise FileNotFoundError).

(** SIGTERM arrives during the fourth system call. *)
Definition interrupted (t : nat) : FS :=
  mkFS (fun p => String.eqb p "/d")
       (fun p => if String.eqb p "/d" then Ok [] else Raise FileNotFoundError)
       (fun _ => Raise FileNotFoundError) (fun _ => Raise FileNotFoundError)
       (fun p => Ok p) (Z.of_nat t)
       (if (t =? 3)%nat then Some SIGTERM else None)
       (fun _ => Ok tt).

(** ** Invariants of a run *)

(** An entry is admissible when its key satisfies [Gk] and its recorded line
    satisfies [Gv]; a dictionary is admissible when its entries are, and,
    where [U] holds, its keys are distinct. *)
Definition entry_ok (Gk : string -> Prop) (Gv : Z -> Prop)
    (kv : string * record) : Prop :=
  Gk (fst kv) /\ Gv (fst (snd kv)).

Definition dict_ok (U : Prop) (Gk : string -> Prop) (Gv : Z -> Prop)
    (d : dict) : Prop :=
  (U -> NoDup (keys d)) /\ Forall (entry_ok Gk Gv) d.

(** A state is admissible when the store holds at least [L] objects, every
    selected reference holds an admissible dictionary, and [J] relates the
    clock and the flag. *)
Definition state_ok (U : Prop) (L : nat) (Sel : ref -> Prop)
    (Gk : string -> Prop) (Gv : Z -> Prop) (J : nat -> bool -> Prop)
    (s : State) : Prop :=
  (L <= length (heap s))%nat /\
  (forall r, Sel r -> dict_ok U Gk Gv (dict_at r s)) /\
  J (clock s) (exit_flag s).

(** [m] keeps the invariant [I], whether it returns or raises; it performs
    only effects in [Eff]; the values it returns satisfy [Q]. *)
Definition keeps {A} (I : State -> Prop) (Eff : effect -> Prop) (m : M A)
    (Q : A -> Prop) : Prop :=
  forall s, I s ->
    I (final (m s)) /\
    Forall Eff (effects (m s)) /\
    (forall a, out (m s) = Ok a -> Q a).

(** Effects that say nothing about a particular file. *)
Definition neutral (e : effect) : bool :=
  match e with
  | IsDir _ | ScanDir _ | Sleep _ => true
  | Log _ (MReceived _) | Log _ (MScanningDir _) | Log _ (MDirNotFound _)
  | Log _ (MExn _) | Log _ (MBanner _) | Log _ (MUptime _) => true
  | _ => false
  end.

(** Every dictionary of the store has distinct keys. *)
Definition store_wf (s : State) : Prop :=
  forall r, NoDup (keys (dict_at r s)).

(** What the invariant asks of a file before [scan_file] may run on it: an
    admissible key, and admissible effects. *)
Definition file_ok (world : nat -> FS) (Gk : string -> Prop) (Gv : Z -> Prop)
    (Eff : effect -> Prop) (file : DirEntry) (word curdir : string) : Prop :=
  Gk (path file) /\
  Eff (Log DEBUG (MScanning file word)) /\
  Eff (Log INFO (MNewFile (name file) curdir)) /\
  Eff (Stat (path file)) /\
  (forall t q, abspath (world t) (path file) = Ok q -> Eff (Open q)) /\
  (forall i, Gv i -> Eff (Log INFO (MFound word (name file) i))).

(** The entries of a listing of [directory] that [watch_dir] scans. *)
Definition scanned (ext : option string) (directory : string) (f : DirEntry)
    : Prop :=
  visible ext f = true /\ path f = join directory (name f) /\ is_dir f = false.

(** ** Statements about recorded lines and matches *)

(** Every recorded line, in every dictionary of the store, is at least 0. *)
Definition lines_nonneg (s : State) : Prop :=
  forall r, Forall (fun kv : string * record => 0 <= fst (snd kv)) (dict_at r s).

(** A match record carries [i = j - 1] for the line of index [j]; a record
    for the first line would carry [-1]. *)
Definition match_nonneg (e : effect) : Prop :=
  match e with
  | Log _ (MFound _ _ i) => 0 <= i
  | _ => True
  end.

Definition anything (_ : string) : Prop := True.

Definition nonneg (n : Z) : Prop := 0 <= n.

Definition always (_ : nat) (_ : bool) : Prop := True.

Definition any_ref (_ : ref) : Prop := True.

Definition any_effect (_ : effect) : Prop := True.

(** The state of [main] when the poll loop starts: one empty dictionary. *)
Definition started : State := mkState 0 false [[]].

(** ** Statements about the flag *)

Definition any_line (_ : Z) : Prop := True.



(** ** Statements about one cycle of [watch_dir] *)

(** The state after one system call that leaves the store alone. *)
Definition called (world : nat -> FS) (s : State) : State :=
  mkState (S (clock s)) (sigflag (pending (world (clock s))) (exit_flag s))
          (heap s).

(** A key that is not the path of any listed entry. *)
Definition stale (files : list DirEntry) (k : string) : bool :=
  negb (existsb (String.eqb k) (map path files)).

(** The entries of a listing that pass the extension filter. *)
Definition listed (ext : option string) (directory : string)
    (l : list (string * bool)) : list DirEntry :=
  filter (visible ext) (entries directory l).

(** What [watch_dir_body] does before it scans a directory that exists:
    the directory test, the path resolution and the listing. *)
Definition listing_effects (world : nat -> FS) (directory abs : string)
    (s : State) : list effect :=
  sigfx (pending (world (clock s)))
    ++ [IsDir directory]
    ++ sigfx (pending (world (S (clock s))))
    ++ [Log DEBUG (MScanningDir abs)]
    ++ sigfx (pending (world (S (S (clock s)))))
    ++ [ScanDir directory].

Definition no_removal (e : effect) : Prop := is_removal e = false.

(** A reference that is [h] or was allocated after the store had [L]
    objects. *)
Definition own_or_new (h : ref) (L : nat) (r : ref) : Prop :=
  r = h \/ (L <= r)%nat.

(** A key that was tracked before the cycle or is the path of a listed
    entry. *)
Definition known_or_listed (known : list string) (files : list DirEntry)
    (k : string) : Prop :=
  In k known \/ In k (map path files).

(** ** Statements about the extension filter *)

Definition ends_with (ext k : string) : Prop := endswith k ext = true.

(** Every effect that names a file names one whose path ends with [ext];
    [d] is the directory that is watched. *)
Definition eff_visible (world : nat -> FS) (d ext : string) (e : effect)
    : Prop :=
  match e with
  | Stat p => endswith p ext = true
  | Open q => exists t p, endswith p ext = true /\ abspath (world t) p = Ok q
  | Log _ (MScanning f _) => endswith (path f) ext = true
  | Log _ (MNewFile n c) => endswith (join c n) ext = true
  | Log _ (MFound _ n _) => endswith (join d n) ext = true
  | Log _ (MRemoved p) => endswith p ext = true
  | _ => True
  end.

(** The effects that scanning, discovering, matching or removing the entry
    [name] of the directory [d] would produce. *)
Definition concerns (d name : string) (e : effect) : Prop :=
  match e with
  | Stat p => p = join d name
  | Log _ (MScanning f _) => path f = join d name
  | Log _ (MNewFile n c) => n = name /\ c = d
  | Log _ (MFound _ n _) => n = name
  | Log _ (MRemoved p) => p = join d name
  | _ => False
  end.

(** The command line [--dir /d --ext .log --magic ERROR]. *)
Definition watch_d_log : Args := mkArgs "/d" (Some ".log") 1 "ERROR".

(** ** The banner

    [banner(text, delim, length)] decorates the text of a log record.  A
    Python [str] is given here as the sequence of its code points, so that
    [len] counts characters.  The numbers [p_len] and [s_len] of [banner] are
    Python floats, halves of integers; they are given as rationals, which is
    what the floats hold exactly as long as the integers stay below [2^53]:
    the statements about [banner] are made for lengths in that range.
    Running out of memory is not part of the model. *)

Definition str : Type := list N.

(** The [str] that a literal of ASCII characters denotes. *)
Definition str_of (s : string) : str :=
  map N_of_ascii (list_ascii_of_string s).

Definition len (s : str) : Z := Z.of_nat (List.length s).

Fixpoint str_times (n : nat) (s : str) : str :=
  match n with
  | O => []
  | S n' => (s ++ str_times n' s)%list
  end.

(** [sys.maxsize], the largest index. *)
Definition index_max : Z := 2 ^ 63 - 1.

(** [s * n]: a count that is no index raises [OverflowError]; a count below
    1 gives the empty string; a result longer than [sys.maxsize] raises
    [OverflowError]. *)
Definition str_mul (s : str) (n : Z) : result str :=
  if (n <? - index_max - 1) || (index_max <? n) then Raise OverflowError
  else if n <? 1 then Ok []
  else if index_max <? len s * n then Raise OverflowError
  else Ok (str_times (Z.to_nat n) s).

(** [int(x)]: truncation towards zero. *)
Definition int_of (x : Q) : Z := Z.quot (Qnum x) (Zpos (Qden x)).

(** [int(x if len(delim) is 1 else x/len(delim) + delim[:x%len(delim)])]:
    with an empty [delim] the division raises; with a longer one the slice
    bound [x % len(delim)] is a float, which a slice refuses. *)
Definition banner_count (x : Q) (delim : str) : result Z :=
  if len delim =? 1 then Ok (int_of x)
  else if len delim =? 0 then Raise ZeroDivisionError
  else Raise TypeError.

(** The character [' ']. *)
Definition space : N := 32%N.

(** [banner(text, delim, length)] *)
Definition banner (text delim : str) (length : Z) : result str :=
  match text with
  | [] => str_mul delim length
  | _ :: _ =>
      if len text + 2 + len delim >? length then Ok text
      else
        let r := length - len text + 2 in
        let p_len := Qdiv (inject_Z r) (inject_Z 2) in
        let s_len := Qminus (inject_Z r) p_len in
        match banner_count p_len delim with
        | Raise e => Raise e
        | Ok p =>
            match str_mul delim p with
            | Raise e => Raise e
            | Ok prefix =>
                match banner_count s_len delim with
                | Raise e => Raise e
                | Ok n =>
                    match str_mul delim n with
                    | Raise e => Raise e
                    | Ok suffix =>
                        Ok (prefix ++ [space] ++ text ++ [space] ++ suffix)%list
                    end
                end
            end
        end
  end.

(** ** What a read of a file reports *)

(** The line numbers reported for the lines from index [j] on, once the
    running maximum is below [j - 1]: [j - 1] for every line that holds the
    word. *)
Fixpoint later_matches (word : string) (j : Z) (lines : list string)
    : list Z :=
  match lines with
  | [] => []
  | line :: rest =>
      if str_in word line then (j - 1) :: later_matches word (j + 1) rest
      else later_matches word (j + 1) rest
  end.

(** The line numbers reported for a whole file: nothing for the first line,
    0 for the second line whatever it holds, then the later matches. *)
Definition reported (word : string) (lines : list string) : list Z :=
  match lines with
  | _ :: _ :: rest => 0 :: later_matches word 2 rest
  | _ => []
  end.

Definition found (word file_name : string) (i : Z) : effect :=
  Log INFO (MFound word file_name i).

(** ** The two halves of [scan_file]

    [scan_file_body] is its debug log, the membership test, [size_probe]
    and, unless the size is unchanged, [reread]. *)

Section Halves.

Variable world : nat -> FS.

(** The branches of [if file.path in history:]; [true] is the early return
    of the source. *)
Definition size_probe (file : DirEntry) (curdir : string) (history : ref)
    (tracked : bool) : M bool :=
  if tracked then
    rec <- getitem history (path file) ;;
    size <- os_stat_size world (path file) ;;
    ret (snd rec =? size)
  else
    log INFO (MNewFile (name file) curdir) ;;
    size <- os_stat_size world (path file) ;;
    setitem history (path file) (0, size) ;;
    ret false.

(** The [with open(...)] block and the return that follows it. *)
Definition reread (file : DirEntry) (word : string) (history : ref) : M ref :=
  p <- os_path_abspath world (path file) ;;
  lines <- open_readlines world p ;;
  rec <- getitem history (path file) ;;
  max_num <- scan_lines word (name file) (fst rec) 0 lines ;;
  size <- os_stat_size world (path file) ;;
  setitem history (path file) (max_num, size) ;;
  ret history.

End Halves.

Definition no_discovery (e : effect) : Prop := is_discovery e = false.

(** ** Statements about the files a cycle touches *)

(** Every effect that names a file names an entry of [files] that is not a
    directory. *)
Definition of_regular_entry (world : nat -> FS) (files : list DirEntry)
    (e : effect) : Prop :=
  match e with
  | Stat p => exists f, In f files /\ is_dir f = false /\ path f = p
  | Open q =>
      exists f t, In f files /\ is_dir f = false /\
                  abspath (world t) (path f) = Ok q
  | Log _ (MScanning f _) => In f files /\ is_dir f = false
  | Log _ (MNewFile n _) =>
      exists f, In f files /\ is_dir f = false /\ name f = n
  | Log _ (MFound _ n _) =>
      exists f, In f files /\ is_dir f = false /\ name f = n
  | _ => True
  end.

Definition is_neutral (e : effect) : Prop := neutral e = true.

(** ** Statements about the exit *)

(** A set flag has a cause: a signal was pending at an earlier system
    call. *)
Definition flag_has_cause (world : nat -> FS) (c : nat) (b : bool) : Prop :=
  b = true -> exists t, (t < c)%nat /\ pending (world t) <> None.

(** ** Statements about what a scan keeps *)

(** From [s] to [s'] the store lost no object and the dictionary [h] lost no
    key. *)
Definition grows (h : ref) (s s' : State) : Prop :=
  (length (heap s) <= length (heap s'))%nat /\
  forall k, In k (keys (dict_at h s)) -> In k (keys (dict_at h s')).

(** [m] never drops an object of the store nor a key of [h], whether it
    returns or raises. *)
Definition only_grows {A} (h : ref) (m : M A) : Prop :=
  forall s, grows h s (final (m s)).

(** ** Statements about sleeping *)

(** [secs] is a length [time.sleep] accepts, and the operating system grants
    the sleep whenever it is asked. *)
Definition sleep_granted (world : nat -> FS) (secs : Z) : Prop :=
  0 <= secs <= sleep_max /\ forall t, nanosleep (world t) secs = Ok tt.

(** ** Further concrete states and entries *)

(** A state in which [a.log] and [b.log] are tracked. *)
Definition tracked_two : State :=
  mkState 0 false [[("/d/a.log", (0, 12)); ("/d/b.log", (0, 12))]].


(** [app.log] has a new size and three lines; the first and the third hold
    the word. *)
Definition rewritten (_ : nat) : FS :=
  quiet [("app.log", false)] (fun _ => Ok 20)
        (fun _ => Ok ["ERROR a"; "b"; "ERROR c"]).
(** * Properties *)

(** ** Runs of the primitives *)

Lemma run_eta {A} (r : Run A) : r = mkRun (out r) (final r) (effects r).
Proof. destruct r; reflexivity. Qed.

Lemma bind_ok {A B} (m : M A) (f : A -> M B) s a s1 e1 :
  m s = mkRun (Ok a) s1 e1 ->
  bind m f s = mkRun (out (f a s1)) (final (f a s1)) (e1 ++ effects (f a s1)).
Proof. intros H. unfold bind. rewrite H. reflexivity. Qed.

Lemma bind_raise {A B} (m : M A) (f : A -> M B) s e s1 e1 :
  m s = mkRun (Raise e) s1 e1 ->
  bind m f s = mkRun (Raise e) s1 e1.
Proof. intros H. unfold bind. rewrite H. reflexivity. Qed.

Lemma signal_handler_run sg s :
  signal_handler sg s =
  mkRun (Ok tt) (mkState (clock s) true (heap s))
        [Log INFO (MReceived (signame sg))].
Proof. reflexivity. Qed.

Lemma tick_run world s :
  tick world s =
  mkRun (Ok (world (clock s)))
        (mkState (S (clock s))
                 (sigflag (pending (world (clock s))) (exit_flag s)) (heap s))
        (sigfx (pending (world (clock s)))).
Proof.
  unfold tick. destruct (pending (world (clock s))); reflexivity.
Qed.

Lemma os_stat_size_run world p s :
  os_stat_size world p s =
  mkRun (st_size (world (clock s)) p)
        (mkState (S (clock s))
                 (sigflag (pending (world (clock s))) (exit_flag s)) (heap s))
        (sigfx (pending (world (clock s))) ++ [Stat p]).
Proof.
  unfold os_stat_size. rewrite (bind_ok _ _ _ _ _ _ (tick_run world s)).
  cbn. destruct (st_size (world (clock s)) p); reflexivity.
Qed.

Lemma os_path_abspath_run world p s :
  os_path_abspath world p s =
  mkRun (abspath (world (clock s)) p)
        (mkState (S (clock s))
                 (sigflag (pending (world (clock s))) (exit_flag s)) (heap s))
        (sigfx (pending (world (clock s)))).
Proof.
  unfold os_path_abspath. rewrite (bind_ok _ _ _ _ _ _ (tick_run world s)).
  cbn. destruct (abspath (world (clock s)) p); cbn; rewrite app_nil_r; reflexivity.
Qed.

Lemma open_readlines_run world p s :
  open_readlines world p s =
  mkRun (readlines (world (clock s)) p)
        (mkState (S (clock s))
                 (sigflag (pending (world (clock s))) (exit_flag s)) (heap s))
        (sigfx (pending (world (clock s))) ++ [Open p]).
Proof.
  unfold open_readlines. rewrite (bind_ok _ _ _ _ _ _ (tick_run world s)).
  cbn. destruct (readlines (world (clock s)) p); reflexivity.
Qed.

Lemma os_path_isdir_run world p s :
  os_path_isdir world p s =
  mkRun (Ok (isdir (world (clock s)) p))
        (mkState (S (clock s))
                 (sigflag (pending (world (clock s))) (exit_flag s)) (heap s))
        (sigfx (pending (world (clock s))) ++ [IsDir p]).
Proof.
  unfold os_path_isdir. rewrite (bind_ok _ _ _ _ _ _ (tick_run world s)).
  reflexivity.
Qed.

Lemma os_scandir_run world p s :
  os_scandir world p s =
  mkRun (match listdir (world (clock s)) p with
         | Ok l => Ok (entries p l)
         | Raise e => Raise e
         end)
        (mkState (S (clock s))
                 (sigflag (pending (world (clock s))) (exit_flag s)) (heap s))
        (sigfx (pending (world (clock s))) ++ [ScanDir p]).
Proof.
  unfold os_scandir. rewrite (bind_ok _ _ _ _ _ _ (tick_run world s)).
  cbn. destruct (listdir (world (clock s)) p); cbn;
    rewrite ?app_nil_r; reflexivity.
Qed.

Lemma time_sleep_accepts secs :
  0 <= secs <= sleep_max ->
  (secs <? - sleep_max) || (sleep_max <? secs) = false /\ (secs <? 0) = false.
Proof.
  unfold sleep_max. intros H. split.
  - apply orb_false_iff. split; apply Z.ltb_ge; lia.
  - apply Z.ltb_ge. lia.
Qed.

Lemma time_sleep_run world secs s :
  0 <= secs <= sleep_max ->
  time_sleep world secs s =
  mkRun (nanosleep (world (clock s)) secs)
        (mkState (S (clock s))
                 (sigflag (pending (world (clock s))) (exit_flag s)) (heap s))
        (sigfx (pending (world (clock s))) ++ [Sleep secs]).
Proof.
  intros H. unfold time_sleep.
  destruct (time_sleep_accepts secs H) as [-> ->].
  rewrite (bind_ok _ _ _ _ _ _ (tick_run world s)).
  cbn. destruct (nanosleep (world (clock s)) secs); reflexivity.
Qed.

Lemma time_sleep_refuses world secs s :
  secs < 0 \/ sleep_max < secs ->
  time_sleep world secs s =
  mkRun (Raise (if (secs <? - sleep_max) || (sleep_max <? secs)
                then OverflowError else ValueError)) s [].
Proof.
  intros H. unfold time_sleep.
  destruct ((secs <? - sleep_max) || (sleep_max <? secs)) eqn:E;
    [reflexivity |].
  apply orb_false_iff in E. destruct E as [_ E]. apply Z.ltb_ge in E.
  destruct (Z.ltb_spec secs 0) as [_ | Hge]; [reflexivity | lia].
Qed.

Lemma time_sleep_effects world secs s :
  effects (time_sleep world secs s) = [] \/
  effects (time_sleep world secs s) =
    (sigfx (pending (world (clock s))) ++ [Sleep secs])%list.
Proof.
  destruct (Z.lt_ge_cases secs 0) as [Hneg | Hpos];
    [left; rewrite time_sleep_refuses by (left; exact Hneg); reflexivity |].
  destruct (Z.lt_ge_cases sleep_max secs) as [Hbig | Hfit];
    [left; rewrite time_sleep_refuses by (right; exact Hbig); reflexivity |].
  right. rewrite time_sleep_run by lia. reflexivity.
Qed.

(** ** Dictionaries *)

Lemma dict_get_mem k d v : dict_get k d = Some v -> dict_mem k d = true.
Proof.
  unfold dict_mem, keys. induction d as [| [k' v'] d IH]; cbn; [discriminate |].
  destruct (String.eqb k k'); [reflexivity | exact IH].
Qed.

Lemma dict_mem_In k d : dict_mem k d = true <-> In k (keys d).
Proof.
  unfold dict_mem. rewrite existsb_exists. split.
  - intros [x [Hx He]]. apply String.eqb_eq in He. subst. exact Hx.
  - intros H. exists k. split; [exact H | apply String.eqb_refl].
Qed.

Lemma dict_get_nonempty k d v : dict_get k d = Some v -> d <> [].
Proof. destruct d; [discriminate | discriminate]. Qed.

Lemma or_new_shared r s :
  dict_at r s <> [] -> or_new (Some r) s = mkRun (Ok r) s [].
Proof.
  unfold or_new, dict_at. intros H. unfold bind, deref. cbn.
  destruct (nth r (heap s) []); [contradiction | destruct s; reflexivity].
Qed.

Lemma or_new_fresh history s :
  dict_of history s = [] ->
  or_new history s =
  mkRun (Ok (length (heap s)))
        (mkState (clock s) (exit_flag s) (heap s ++ [[]])) [].
Proof.
  destruct history as [r |]; cbn; [| reflexivity].
  unfold dict_at. intros H. unfold bind, deref. cbn. rewrite H. reflexivity.
Qed.

Lemma log_run l m s : log l m s = mkRun (Ok tt) s [Log l m].
Proof. reflexivity. Qed.

Lemma contains_run r k s :
  contains r k s = mkRun (Ok (dict_mem k (dict_at r s))) s [].
Proof. unfold contains, bind, deref, dict_at. cbn. reflexivity. Qed.

Lemma getitem_run r k s v :
  dict_get k (dict_at r s) = Some v -> getitem r k s = mkRun (Ok v) s [].
Proof.
  intros H. unfold getitem, bind, deref. cbn. unfold dict_at in H.
  rewrite H. reflexivity.
Qed.

Lemma setitem_run r k v s :
  setitem r k v s =
  mkRun (Ok tt)
        (mkState (clock s) (exit_flag s)
                 (replace_nth r (dict_set k v (dict_at r s)) (heap s))) [].
Proof. reflexivity. Qed.

Ltac step H := rewrite (bind_ok _ _ _ _ _ _ H); cbn [out final effects].
Ltac stop H := rewrite (bind_raise _ _ _ _ _ _ H); cbn [out final effects].

(** ** The signal handler *)

(** C9, as the code has it: for either signal the handler logs one
    [Received <name>] record at info level and sets [exit_flag]; the clock
    and the store of dictionaries are left as they were. *)
Theorem signal_handler_logs_and_sets_flag :
  forall (sg : signal) (s : State),
    signal_handler sg s =
    mkRun (Ok tt) (mkState (clock s) true (heap s))
          [Log INFO (MReceived (signame sg))].
Proof. intros sg s. apply signal_handler_run. Qed.

(** C9, as stated, fails: handling SIGINT performs a log call. *)
Lemma signal_handler_performs_io :
  effects (signal_handler SIGINT init) <> [].
Proof. cbn. discriminate. Qed.

(** ** Scanning a file whose size did not change *)

Lemma sigfx_quiet (f : effect -> bool) p :
  (forall sg, f (Log INFO (MReceived (signame sg))) = false) ->
  existsb f (sigfx p) = false.
Proof. intros H. destruct p; cbn; [rewrite H |]; reflexivity. Qed.

(** C2: when [file.path] is a key of the history and [os.stat] reports the
    recorded size, [scan_file] returns the history it was given, leaves every
    dictionary as it was (so the recorded line is not altered), and performs
    only the debug log and the size probe: no read, no match record, no
    discovery record. *)
Theorem scan_file_skips_unchanged :
  forall world file word h curdir s n size,
    dict_get (path file) (dict_at h s) = Some (n, size) ->
    st_size (world (clock s)) (path file) = Ok size ->
    let r := scan_file world file word (Some h) curdir s in
    out r = Ok h /\
    heap (final r) = heap s /\
    effects r =
      Log DEBUG (MScanning file word)
        :: sigfx (pending (world (clock s))) ++ [Stat (path file)] /\
    existsb is_read (effects r) = false /\
    existsb is_match (effects r) = false /\
    existsb is_discovery (effects r) = false.
Proof.
  intros world file word h curdir s n size Hget Hsize r.
  assert (Hr : r =
    mkRun (Ok h)
      (mkState (S (clock s))
               (sigflag (pending (world (clock s))) (exit_flag s)) (heap s))
      (Log DEBUG (MScanning file word)
         :: sigfx (pending (world (clock s))) ++ [Stat (path file)])).
  { subst r. unfold scan_file.
    step (or_new_shared h s (dict_get_nonempty _ _ _ Hget)).
    unfold scan_file_body.
    step (log_run DEBUG (MScanning file word) s).
    step (contains_run h (path file) s).
    rewrite (dict_get_mem _ _ _ Hget).
    rewrite (bind_ok _ _ s true
               (mkState (S (clock s))
                  (sigflag (pending (world (clock s))) (exit_flag s)) (heap s))
               (sigfx (pending (world (clock s))) ++ [Stat (path file)])).
    - cbn. rewrite app_nil_r. reflexivity.
    - step (getitem_run h (path file) s (n, size) Hget).
      pose proof (os_stat_size_run world (path file) s) as Hs.
      rewrite Hsize in Hs. step Hs.
      cbn. rewrite Z.eqb_refl, app_nil_r. reflexivity. }
  rewrite Hr. cbn [out final effects heap existsb is_read is_match is_discovery orb].
  rewrite !existsb_app, !sigfx_quiet by reflexivity.
  repeat split.
Qed.

Lemma scan_file_skips_unchanged_witness :
  out (scan_file steady app_log "ERROR" (Some 0%nat) "/d" tracked) = Ok 0%nat /\
  heap (final (scan_file steady app_log "ERROR" (Some 0%nat) "/d" tracked)) =
    heap tracked.
Proof.
  pose proof (scan_file_skips_unchanged steady app_log "ERROR" 0%nat "/d"
                tracked 0 12 eq_refl eq_refl) as H.
  cbv zeta in H. destruct H as [H1 [H2 _]]. split; assumption.
Defined.

(** ** Runs of the program on concrete directories *)

(** C1, the code at the failing input.  [app.log] has the lines
    [a], [ERROR b], [c]; after the first poll the line [ERROR d] is appended.
    The first poll reports one match, "at line 0".  The second poll reports
    two: the old one again, and the new line "at line 2". *)
Theorem second_poll_repeats_old_match :
  filter is_match (effects (main growing 0 watch_d 1 init)) =
    [Log INFO (MFound "ERROR" "app.log" 0)] /\
  filter is_match (effects (main growing 0 watch_d 2 init)) =
    [Log INFO (MFound "ERROR" "app.log" 0);
     Log INFO (MFound "ERROR" "app.log" 0);
     Log INFO (MFound "ERROR" "app.log" 2)].
Proof. split; vm_compute; reflexivity. Qed.

(** The second line of a file is reported whether or not it holds the word. *)
Lemma second_line_always_reported :
  effects (scan_lines "ERROR" "app.log" 0 0 ["a"; "b"] init) =
    [Log INFO (MFound "ERROR" "app.log" 0)].
Proof. reflexivity. Qed.

(** C5, the code at the failing input.  [main] starts with an empty history;
    [app.log] is listed at every poll but cannot be opened.  Each of the two
    polls logs the discovery of [app.log]. *)
Theorem unreadable_file_rediscovered :
  filter is_discovery (effects (main unreadable 0 watch_d 2 init)) =
    [Log INFO (MNewFile "app.log" "/d"); Log INFO (MNewFile "app.log" "/d")] /\
  dict_at 0%nat (final (main unreadable 0 watch_d 2 init)) = [].
Proof. split; vm_compute; reflexivity. Qed.

(** C3, the code at the failing input.  [a.log] and [b.log] are tracked and
    [/d] is now empty.  The reconciliation logs the removal of [a.log], pops
    that entry, and the loop over the dictionary then raises [RuntimeError]:
    [watch_dir] does not return, [b.log] is neither reported nor removed,
    and the poll loop logs the exception at error level. *)
Theorem reconciliation_stops_at_first_removal :
  out (watch_dir emptied "/d" "ERROR" None (Some 0%nat) 5 tracked_two)
    = Raise RuntimeError /\
  filter is_removal
    (effects (watch_dir emptied "/d" "ERROR" None (Some 0%nat) 5 tracked_two))
    = [Log INFO (MRemoved "/d/a.log")] /\
  dict_at 0%nat
    (final (watch_dir emptied "/d" "ERROR" None (Some 0%nat) 5 tracked_two))
    = [("/d/b.log", (0, 12))] /\
  filter is_error (effects (poll_iteration emptied watch_d 0%nat tracked_two))
    = [Log ERROR (MExn RuntimeError)].
Proof. repeat split; vm_compute; reflexivity. Qed.


(** C6, as stated, fails: with the filter [d/a.txt] the name [a.txt] does not
    end with the filter, yet the entry is scanned, discovered and tracked,
    because the test is made on the path [/d/a.txt]. *)
Lemma filter_tests_the_path :
  endswith "a.txt" "d/a.txt" = false /\
  effects (watch_dir with_txt "/d" "ERROR" (Some "d/a.txt") None 5 init) =
    [IsDir "/d"; Log DEBUG (MScanningDir "/d"); ScanDir "/d";
     Log DEBUG (MScanning (mkEntry "a.txt" "/d/a.txt" false) "ERROR");
     Log INFO (MNewFile "a.txt" "/d"); Stat "/d/a.txt"; Open "/d/a.txt";
     Stat "/d/a.txt"] /\
  keys (dict_at 0%nat (final (watch_dir with_txt "/d" "ERROR" (Some "d/a.txt")
                            None 5 init))) = ["/d/a.txt"].
Proof. repeat split; vm_compute; reflexivity. Qed.

(** ** Well-formed dictionaries *)

Lemma keys_dict_set k v d :
  keys (dict_set k v d) = if dict_mem k d then keys d else (keys d ++ [k])%list.
Proof.
  unfold dict_mem, keys. induction d as [| [k' v'] d IH]; cbn; [reflexivity |].
  destruct (String.eqb k k') eqn:E; cbn; [reflexivity |].
  rewrite IH.
  destruct (existsb (String.eqb k) (map fst d)); reflexivity.
Qed.

Lemma keys_dict_remove_incl k d x :
  In x (keys (dict_remove k d)) -> In x (keys d).
Proof.
  induction d as [| [k' v'] d IH]; cbn; [tauto |].
  destruct (String.eqb k k'); cbn; tauto.
Qed.

Lemma dict_remove_not_in k d :
  NoDup (keys d) -> ~ In k (keys (dict_remove k d)).
Proof.
  induction d as [| [k' v'] d IH]; cbn; [tauto |].
  intros Hnd. inversion Hnd as [| ? ? Hk' Hd]; subst.
  destruct (String.eqb_spec k k') as [-> | Hne]; [exact Hk' |].
  cbn. intros [H | H]; [congruence | exact (IH Hd H)].
Qed.

Lemma dict_remove_length k d :
  In k (keys d) -> S (length (dict_remove k d)) = length d.
Proof.
  induction d as [| [k' v'] d IH]; cbn; [tauto |].
  destruct (String.eqb_spec k k') as [-> | Hne]; [reflexivity |].
  intros [H | H]; [congruence |]. cbn. rewrite (IH H). reflexivity.
Qed.

Section DictOk.

Variable U : Prop.
Variable Gk : string -> Prop.
Variable Gv : Z -> Prop.

Lemma dict_ok_nil : dict_ok U Gk Gv [].
Proof. split; [intros _ |]; constructor. Qed.

Lemma dict_ok_set k v d :
  Gk k -> Gv (fst v) -> dict_ok U Gk Gv d -> dict_ok U Gk Gv (dict_set k v d).
Proof.
  intros Hk Hv [Hnd Hall]. split.
  - intros HU. specialize (Hnd HU).
    rewrite keys_dict_set. destruct (dict_mem k d) eqn:E; [exact Hnd |].
    apply NoDup_app; [exact Hnd | repeat constructor; cbn; tauto |].
    intros x Hx [<- | []]. apply dict_mem_In in Hx. congruence.
  - clear Hnd. induction Hall as [| [k' v'] d Hkv Hall IH]; cbn.
    + repeat constructor; assumption.
    + destruct (String.eqb k k'); constructor; try assumption.
      split; [apply Hkv | exact Hv].
Qed.

Lemma dict_ok_remove k d :
  dict_ok U Gk Gv d -> dict_ok U Gk Gv (dict_remove k d).
Proof.
  intros [Hnd Hall]. split.
  - intros HU. specialize (Hnd HU). clear Hall.
    induction d as [| [k' v'] d IH]; cbn; [constructor |].
    inversion Hnd as [| ? ? Hk' Hd]; subst.
    destruct (String.eqb k k'); [exact Hd |].
    cbn. constructor; [| exact (IH Hd)].
    intros H. apply Hk'. exact (keys_dict_remove_incl _ _ _ H).
  - clear Hnd. induction Hall as [| [k' v'] d Hkv Hall IH]; cbn;
      [constructor |].
    destruct (String.eqb k k'); [exact Hall | constructor; assumption].
Qed.

Lemma dict_ok_get k d v :
  dict_ok U Gk Gv d -> dict_get k d = Some v -> Gv (fst v).
Proof.
  intros [_ Hall]. induction Hall as [| [k' v'] d Hkv Hall IH]; cbn;
    [discriminate |].
  destruct (String.eqb k k'); [| exact IH].
  intros H. injection H as <-. apply Hkv.
Qed.

Lemma dict_ok_key k d : dict_ok U Gk Gv d -> In k (keys d) -> Gk k.
Proof.
  intros [_ Hall] Hin. unfold keys in Hin. apply in_map_iff in Hin.
  destruct Hin as [kv [<- Hkv]].
  rewrite Forall_forall in Hall. apply (Hall kv Hkv).
Qed.

Lemma dict_ok_merge o d :
  dict_ok U Gk Gv o -> dict_ok U Gk Gv d -> dict_ok U Gk Gv (dict_merge o d).
Proof.
  intros [_ Ho]. unfold dict_merge. revert d.
  induction Ho as [| kv o Hkv Ho IH]; cbn; intros d Hd; [exact Hd |].
  apply IH. apply dict_ok_set; [apply Hkv | apply Hkv | exact Hd].
Qed.

End DictOk.

(** ** A program logic for invariants *)

Section Keeps.

Context {I : State -> Prop} {Eff : effect -> Prop}.

Lemma keeps_ret {A} (a : A) (Q : A -> Prop) : Q a -> keeps I Eff (ret a) Q.
Proof.
  intros Ha s Hs. cbn. repeat split; [exact Hs | constructor |].
  intros a' H. injection H as <-. exact Ha.
Qed.

Lemma keeps_raise {A} (e : exn) (Q : A -> Prop) : keeps I Eff (raise e) Q.
Proof.
  intros s Hs. cbn. repeat split; [exact Hs | constructor | discriminate].
Qed.

Lemma keeps_bind {A B} (m : M A) (f : A -> M B) (Q : A -> Prop)
    (R : B -> Prop) :
  keeps I Eff m Q -> (forall a, Q a -> keeps I Eff (f a) R) ->
  keeps I Eff (bind m f) R.
Proof.
  intros Hm Hf s Hs. unfold bind. cbv zeta.
  destruct (Hm s Hs) as [H1 [H2 H3]].
  destruct (out (m s)) as [a | e] eqn:E; cbn.
  - destruct (Hf a (H3 a eq_refl) (final (m s)) H1) as [F1 [F2 F3]].
    repeat split; [exact F1 | apply Forall_app; split; assumption | exact F3].
  - repeat split; [exact H1 | exact H2 | discriminate].
Qed.

Lemma keeps_weaken {A} (m : M A) (Q Q' : A -> Prop) :
  keeps I Eff m Q -> (forall a, Q a -> Q' a) -> keeps I Eff m Q'.
Proof.
  intros Hm HQ s Hs. destruct (Hm s Hs) as [H1 [H2 H3]].
  repeat split; [exact H1 | exact H2 |]. intros a Ha. exact (HQ a (H3 a Ha)).
Qed.

Lemma keeps_try {A} (m : M A) (handler : exn -> M A) (Q : A -> Prop) :
  keeps I Eff m Q -> (forall e, keeps I Eff (handler e) Q) ->
  keeps I Eff (try_except m handler) Q.
Proof.
  intros Hm Hh s Hs. unfold try_except. cbv zeta.
  destruct (Hm s Hs) as [H1 [H2 H3]].
  destruct (out (m s)) as [a | e] eqn:E.
  - repeat split; [exact H1 | exact H2 |]. rewrite E. exact H3.
  - destruct (Hh e (final (m s)) H1) as [F1 [F2 F3]]. cbn.
    repeat split; [exact F1 | apply Forall_app; split; assumption | exact F3].
Qed.

Lemma keeps_emit (e : effect) :
  Eff e -> keeps I Eff (emit e) (fun _ => True).
Proof.
  intros He s Hs. cbn. repeat split; [exact Hs | repeat constructor; exact He].
Qed.

Lemma keeps_log (l : level) (m : msg) :
  Eff (Log l m) -> keeps I Eff (log l m) (fun _ => True).
Proof. apply keeps_emit. Qed.

Lemma keeps_lift {A} (r : result A) :
  keeps I Eff (lift r) (fun a => r = Ok a).
Proof.
  destruct r as [a | e]; cbn; [apply keeps_ret; reflexivity | apply keeps_raise].
Qed.

Lemma keeps_get_exit_flag : keeps I Eff get_exit_flag (fun _ => True).
Proof. intros s Hs. cbn. repeat split; [exact Hs | constructor]. Qed.

End Keeps.

(** *** The store under [replace_nth] and allocation *)

Lemma replace_nth_length {A} (n : nat) (x : A) (l : list A) :
  length (replace_nth n x l) = length l.
Proof.
  revert n. induction l as [| h t IH]; intros [| n]; cbn; try reflexivity.
  rewrite IH. reflexivity.
Qed.

Lemma nth_replace_nth_same {A} (n : nat) (x d : A) (l : list A) :
  (n < length l)%nat -> nth n (replace_nth n x l) d = x.
Proof.
  revert n. induction l as [| h t IH]; intros [| n]; cbn; try lia;
    [reflexivity |].
  intros H. apply IH. lia.
Qed.

Lemma nth_replace_nth_beyond {A} (n : nat) (x d : A) (l : list A) :
  (length l <= n)%nat -> nth n (replace_nth n x l) d = d.
Proof.
  intros H. apply nth_overflow. rewrite replace_nth_length. exact H.
Qed.

Lemma nth_replace_nth_other {A} (n m : nat) (x d : A) (l : list A) :
  n <> m -> nth m (replace_nth n x l) d = nth m l d.
Proof.
  revert n m. induction l as [| h t IH]; intros [| n] [| m]; cbn;
    try reflexivity; try congruence.
  intros H. apply IH. congruence.
Qed.

Lemma nth_alloc (r : nat) (l : list dict) : nth r (l ++ [[]]) [] = nth r l [].
Proof.
  destruct (Nat.lt_ge_cases r (length l)) as [H | H].
  - apply app_nth1. exact H.
  - rewrite (nth_overflow l) by exact H.
    rewrite app_nth2 by exact H.
    destruct (r - length l)%nat as [| [| k]]; reflexivity.
Qed.

(** ** Invariants of the program

    One pass over the program for a family of invariants: [L] and [Sel] say
    which dictionaries are constrained, [Gk] and [Gv] constrain their keys
    and recorded lines, [U] asks for distinct keys, [J] relates the clock
    and the flag, [Eff] constrains the effects.  Each lemma holds whether
    the computation returns or raises. *)

Section Invariants.

Variable world : nat -> FS.
Variable U : Prop.
Variable L : nat.
Variable Sel : ref -> Prop.
Variable Gk : string -> Prop.
Variable Gv : Z -> Prop.
Variable J : nat -> bool -> Prop.
Variable Eff : effect -> Prop.

Hypothesis Sel_fresh : forall r, (L <= r)%nat -> Sel r.
Hypothesis Gv_zero : Gv 0.
Hypothesis Gv_scan : forall n i, Gv n -> n < i \/ i = 0 -> Gv i.
Hypothesis J_tick :
  forall c b, J c b -> J (S c) (sigflag (pending (world c)) b).
Hypothesis Eff_neutral : forall e, neutral e = true -> Eff e.

Local Abbreviation I := (state_ok U L Sel Gk Gv J).
Local Abbreviation OK := (dict_ok U Gk Gv).

Ltac keeps_intro := split; [split; [| split] | split].

Lemma keeps_tick : keeps I Eff (tick world) (fun w => exists t, w = world t).
Proof.
  intros s [HL [HS HJ]]. rewrite tick_run. cbn [out final effects].
  keeps_intro.
  - exact HL.
  - exact HS.
  - apply J_tick. exact HJ.
  - destruct (pending (world (clock s))); cbn; repeat constructor.
    apply Eff_neutral. reflexivity.
  - intros a H. injection H as <-. eauto.
Qed.

Lemma keeps_new_dict : keeps I Eff new_dict Sel.
Proof.
  intros s [HL [HS HJ]]. unfold new_dict.
  cbn [out final effects heap clock exit_flag]. keeps_intro.
  - cbn [heap]. rewrite length_app. cbn. lia.
  - intros r Hr. unfold dict_at. cbn [heap]. rewrite nth_alloc.
    apply (HS r Hr).
  - exact HJ.
  - constructor.
  - intros a H. injection H as <-. apply Sel_fresh. exact HL.
Qed.

Lemma keeps_deref r : keeps I Eff (deref r) (fun d => Sel r -> OK d).
Proof.
  intros s Hs. cbn. split; [exact Hs | split; [constructor |]].
  intros a H. injection H as <-. intros Hr.
  destruct Hs as [_ [HS _]]. apply (HS r Hr).
Qed.

Lemma keeps_store r d :
  (Sel r -> OK d) -> keeps I Eff (store r d) (fun _ => True).
Proof.
  intros Hd s [HL [HS HJ]]. unfold store.
  cbn [out final effects heap clock exit_flag]. keeps_intro.
  - cbn [heap]. rewrite replace_nth_length. exact HL.
  - intros r' Hr'. unfold dict_at. cbn [heap].
    destruct (Nat.eq_dec r r') as [<- | Hne].
    + destruct (Nat.lt_ge_cases r (length (heap s))) as [H | H].
      * rewrite nth_replace_nth_same by exact H. exact (Hd Hr').
      * rewrite nth_replace_nth_beyond by exact H. apply dict_ok_nil.
    + rewrite nth_replace_nth_other by exact Hne. apply (HS r' Hr').
  - exact HJ.
  - constructor.
  - intros _ _. exact Logic.I.
Qed.

Lemma keeps_or_new history :
  (forall r, history = Some r -> Sel r) -> keeps I Eff (or_new history) Sel.
Proof.
  intros Hh. destruct history as [r |]; cbn; [| apply keeps_new_dict].
  eapply keeps_bind; [apply keeps_deref | intros d _].
  destruct d; [apply keeps_new_dict | apply keeps_ret; auto].
Qed.

Lemma keeps_contains r k : keeps I Eff (contains r k) (fun _ => True).
Proof.
  unfold contains.
  eapply keeps_bind; [apply keeps_deref | intros d _].
  apply keeps_ret. exact Logic.I.
Qed.

Lemma keeps_getitem r k :
  Sel r -> keeps I Eff (getitem r k) (fun v => Gv (fst v)).
Proof.
  intros Hr. unfold getitem.
  eapply keeps_bind; [apply keeps_deref | intros d Hd].
  destruct (dict_get k d) as [v |] eqn:E; [| apply keeps_raise].
  apply keeps_ret. exact (dict_ok_get U Gk Gv k d v (Hd Hr) E).
Qed.

Lemma keeps_setitem r k v :
  Gk k -> Gv (fst v) -> keeps I Eff (setitem r k v) (fun _ => True).
Proof.
  intros Hk Hv. unfold setitem.
  eapply keeps_bind; [apply keeps_deref | intros d Hd].
  apply keeps_store. intros Hr. apply dict_ok_set; auto.
Qed.

Lemma keeps_pop r k : keeps I Eff (pop r k) (fun _ => True).
Proof.
  unfold pop.
  eapply keeps_bind; [apply keeps_deref | intros d Hd].
  destruct (dict_mem k d); [| apply keeps_raise].
  apply keeps_store. intros Hr. apply dict_ok_remove. auto.
Qed.

Lemma keeps_update r other :
  Sel other -> keeps I Eff (update r other) (fun _ => True).
Proof.
  intros Ho. unfold update.
  destruct (Nat.eqb r other); [apply keeps_ret; exact Logic.I |].
  eapply keeps_bind; [apply keeps_deref | intros o Hod].
  eapply keeps_bind; [apply keeps_deref | intros d Hd].
  apply keeps_store. intros Hr. apply dict_ok_merge; auto.
Qed.

Lemma keeps_os_path_isdir p :
  keeps I Eff (os_path_isdir world p) (fun _ => True).
Proof.
  unfold os_path_isdir.
  eapply keeps_bind; [apply keeps_tick | intros w _].
  eapply keeps_bind; [apply keeps_emit, Eff_neutral; reflexivity | intros _ _].
  apply keeps_ret. exact Logic.I.
Qed.

Lemma keeps_os_path_abspath p :
  keeps I Eff (os_path_abspath world p)
        (fun q => exists t, abspath (world t) p = Ok q).
Proof.
  unfold os_path_abspath.
  eapply keeps_bind; [apply keeps_tick | intros w [t ->]].
  eapply keeps_weaken; [apply keeps_lift |].
  intros q Hq. exists t. exact Hq.
Qed.

Lemma keeps_os_scandir p :
  keeps I Eff (os_scandir world p)
        (fun files => forall f, In f files -> path f = join p (name f)).
Proof.
  unfold os_scandir.
  eapply keeps_bind; [apply keeps_tick | intros w _].
  eapply keeps_bind; [apply keeps_emit, Eff_neutral; reflexivity | intros _ _].
  eapply keeps_bind; [apply keeps_lift | intros l _].
  apply keeps_ret. intros f Hf. unfold entries in Hf. apply in_map_iff in Hf.
  destruct Hf as [e [<- _]]. reflexivity.
Qed.

Lemma keeps_os_stat_size p :
  Eff (Stat p) -> keeps I Eff (os_stat_size world p) (fun _ => True).
Proof.
  intros He. unfold os_stat_size.
  eapply keeps_bind; [apply keeps_tick | intros w _].
  eapply keeps_bind; [apply keeps_emit; exact He | intros _ _].
  eapply keeps_weaken; [apply keeps_lift | auto].
Qed.

Lemma keeps_open_readlines p :
  Eff (Open p) -> keeps I Eff (open_readlines world p) (fun _ => True).
Proof.
  intros He. unfold open_readlines.
  eapply keeps_bind; [apply keeps_tick | intros w _].
  eapply keeps_bind; [apply keeps_emit; exact He | intros _ _].
  eapply keeps_weaken; [apply keeps_lift | auto].
Qed.

Lemma keeps_time_time : keeps I Eff (time_time world) (fun _ => True).
Proof.
  unfold time_time.
  eapply keeps_bind; [apply keeps_tick | intros w _].
  apply keeps_ret. exact Logic.I.
Qed.

Lemma keeps_time_sleep secs :
  keeps I Eff (time_sleep world secs) (fun _ => True).
Proof.
  unfold time_sleep.
  destruct ((secs <? - sleep_max) || (sleep_max <? secs));
    [apply keeps_raise |].
  destruct (secs <? 0); [apply keeps_raise |].
  eapply keeps_bind; [apply keeps_tick | intros w _].
  eapply keeps_bind; [apply keeps_emit, Eff_neutral; reflexivity | intros _ _].
  eapply keeps_weaken; [apply keeps_lift | auto].
Qed.

Lemma keeps_scan_lines word file_name lines :
  (forall i, Gv i -> Eff (Log INFO (MFound word file_name i))) ->
  forall max_num j,
    Gv max_num ->
    keeps I Eff (scan_lines word file_name max_num j lines) Gv.
Proof.
  intros He. induction lines as [| line rest IH]; intros max_num j Hm; cbn.
  - apply keeps_ret. exact Hm.
  - destruct ((max_num <? j - 1) && str_in word line || (j =? 1)) eqn:E.
    + assert (Hi : Gv (j - 1)).
      { apply (Gv_scan max_num); [exact Hm |].
        apply orb_true_iff in E. destruct E as [E | E].
        - apply andb_true_iff in E. destruct E as [E _].
          apply Z.ltb_lt in E. left. exact E.
        - apply Z.eqb_eq in E. right. lia. }
      eapply keeps_bind; [apply keeps_log, He; exact Hi | intros _ _].
      apply IH. exact Hi.
    + apply IH. exact Hm.
Qed.

Lemma keeps_scan_file file word history curdir :
  (forall r, history = Some r -> Sel r) ->
  file_ok world Gk Gv Eff file word curdir ->
  keeps I Eff (scan_file world file word history curdir) Sel.
Proof.
  intros Hh [Hk [E1 [E2 [E3 [E4 E5]]]]]. unfold scan_file.
  eapply keeps_bind; [apply keeps_or_new; exact Hh | intros h Hsel].
  unfold scan_file_body.
  eapply keeps_bind; [apply keeps_log; exact E1 | intros _ _].
  eapply keeps_bind; [apply keeps_contains | intros tracked_ _].
  eapply keeps_bind with (Q := fun _ => True).
  - destruct tracked_.
    + eapply keeps_bind; [apply keeps_getitem; exact Hsel | intros rec _].
      eapply keeps_bind; [apply keeps_os_stat_size; exact E3 | intros size _].
      apply keeps_ret. exact Logic.I.
    + eapply keeps_bind; [apply keeps_log; exact E2 | intros _ _].
      eapply keeps_bind; [apply keeps_os_stat_size; exact E3 | intros size _].
      eapply keeps_bind;
        [apply keeps_setitem; [exact Hk | exact Gv_zero] | intros _ _].
      apply keeps_ret. exact Logic.I.
  - intros unchanged _. destruct unchanged; [apply keeps_ret; exact Hsel |].
    eapply keeps_bind; [apply keeps_os_path_abspath | intros p [t Hp]].
    eapply keeps_bind;
      [apply keeps_open_readlines; exact (E4 t p Hp) | intros lines _].
    eapply keeps_bind; [apply keeps_getitem; exact Hsel | intros rec Hrec].
    eapply keeps_bind;
      [apply keeps_scan_lines; [exact E5 | exact Hrec] | intros m Hm].
    eapply keeps_bind; [apply keeps_os_stat_size; exact E3 | intros size _].
    eapply keeps_bind;
      [apply keeps_setitem; [exact Hk | exact Hm] | intros _ _].
    apply keeps_ret. exact Hsel.
Qed.

Lemma keeps_scan_files files word history directory :
  Sel history ->
  (forall f, In f files -> is_dir f = false ->
             file_ok world Gk Gv Eff f word directory) ->
  keeps I Eff (scan_files world files word history directory) (fun _ => True).
Proof.
  intros Hh. induction files as [| file rest IH]; intros Hf; cbn.
  - apply keeps_ret. exact Logic.I.
  - eapply keeps_bind with (Q := fun _ => True).
    + destruct (is_dir file) eqn:E; cbn; [apply keeps_ret; exact Logic.I |].
      eapply keeps_bind.
      * apply keeps_scan_file.
        -- intros r Hr. injection Hr as <-. exact Hh.
        -- apply Hf; [left; reflexivity | exact E].
      * intros r Hr. apply keeps_update. exact Hr.
    + intros _ _. apply IH. intros f Hin. apply Hf. right. exact Hin.
Qed.

Lemma keeps_reconcile_body history files k :
  (existsb (String.eqb k) (map path files) = false ->
   Eff (Log INFO (MRemoved k))) ->
  keeps I Eff (reconcile_body history files k) (fun _ => True).
Proof.
  intros He. unfold reconcile_body.
  eapply keeps_bind with (Q := fun _ => True).
  - destruct (existsb (String.eqb k) (map path files)); cbn.
    + apply keeps_ret. exact Logic.I.
    + eapply keeps_bind; [apply keeps_log, He; reflexivity | intros _ _].
      apply keeps_ret. exact Logic.I.
  - intros to_kill _. induction to_kill as [| kill rest IH]; cbn.
    + apply keeps_ret. exact Logic.I.
    + eapply keeps_bind; [apply keeps_pop | intros _ _]. exact IH.
Qed.

Lemma keeps_for_keys d used body ks :
  (forall k, In k ks -> keeps I Eff (body k) (fun _ => True)) ->
  keeps I Eff (for_keys d used ks body) (fun _ => True).
Proof.
  induction ks as [| k rest IH]; intros Hb; cbn.
  - eapply keeps_bind; [apply keeps_deref | intros now _].
    destruct (negb (length now =? used)%nat);
      [apply keeps_raise | apply keeps_ret; exact Logic.I].
  - eapply keeps_bind; [apply keeps_deref | intros now _].
    destruct (negb (length now =? used)%nat); [apply keeps_raise |].
    eapply keeps_bind; [apply Hb; left; reflexivity | intros _ _].
    apply IH. intros k' Hk'. apply Hb. right. exact Hk'.
Qed.

Lemma keeps_reconcile history files :
  Sel history ->
  (forall k, Gk k -> existsb (String.eqb k) (map path files) = false ->
             Eff (Log INFO (MRemoved k))) ->
  keeps I Eff (reconcile history files) (fun _ => True).
Proof.
  intros Hh He. unfold reconcile, for_dict.
  eapply keeps_bind; [apply keeps_deref | intros now Hnow].
  apply keeps_for_keys. intros k Hk.
  apply keeps_reconcile_body. apply He.
  exact (dict_ok_key U Gk Gv k now (Hnow Hh) Hk).
Qed.

Lemma keeps_list_files directory ext :
  keeps I Eff (list_files world directory ext)
        (fun files => forall f, In f files ->
           visible ext f = true /\ path f = join directory (name f)).
Proof.
  unfold list_files. destruct ext as [[| c e] |].
  - eapply keeps_weaken; [apply keeps_os_scandir | cbn; auto].
  - eapply keeps_bind; [apply keeps_os_scandir | intros l Hl].
    apply keeps_ret. intros f Hf. apply filter_In in Hf.
    destruct Hf as [Hin Hv]. split; [exact Hv | apply Hl, Hin].
  - eapply keeps_weaken; [apply keeps_os_scandir | cbn; auto].
Qed.

(** What the invariant asks of a poll of [directory]. *)
Hypothesis Eff_removed : forall k, Gk k -> Eff (Log INFO (MRemoved k)).

Lemma keeps_watch_dir directory word ext history wait :
  (forall r, history = Some r -> Sel r) ->
  (forall f, scanned ext directory f ->
             file_ok world Gk Gv Eff f word directory) ->
  keeps I Eff (watch_dir world directory word ext history wait) Sel.
Proof.
  intros Hh Hf. unfold watch_dir.
  eapply keeps_bind; [apply keeps_or_new; exact Hh | intros h Hsel].
  eapply keeps_bind; [apply keeps_os_path_isdir | intros exists_ _].
  eapply keeps_bind with (Q := fun _ => True).
  - destruct exists_.
    + eapply keeps_bind; [apply keeps_os_path_abspath | intros abs _].
      eapply keeps_bind;
        [apply keeps_log, Eff_neutral; reflexivity | intros _ _].
      eapply keeps_bind; [apply keeps_list_files | intros files Hfiles].
      eapply keeps_bind.
      * apply keeps_scan_files; [exact Hsel |].
        intros f Hin Hd. apply Hf.
        destruct (Hfiles f Hin) as [Hv Hp]. repeat split; assumption.
      * intros _ _. apply keeps_reconcile; [exact Hsel |].
        intros k Hk _. apply Eff_removed. exact Hk.
    + eapply keeps_bind;
        [apply keeps_log, Eff_neutral; reflexivity | intros _ _].
      apply keeps_time_sleep.
  - intros _ _. apply keeps_ret. exact Hsel.
Qed.

Lemma keeps_poll args history :
  Sel history ->
  (forall t d f, abspath (world t) (directory args) = Ok d ->
                 scanned (extension args) d f ->
                 file_ok world Gk Gv Eff f (magic args) d) ->
  keeps I Eff (poll world args history) (fun _ => True).
Proof.
  intros Hh Hf. unfold poll.
  eapply keeps_bind; [apply keeps_os_path_abspath | intros d [t Hd]].
  eapply keeps_bind.
  - apply keeps_watch_dir.
    + intros r Hr. injection Hr as <-. exact Hh.
    + intros f Hs. exact (Hf t d f Hd Hs).
  - intros r Hr. apply keeps_update. exact Hr.
Qed.

Lemma keeps_poll_iteration args history :
  Sel history ->
  (forall t d f, abspath (world t) (directory args) = Ok d ->
                 scanned (extension args) d f ->
                 file_ok world Gk Gv Eff f (magic args) d) ->
  keeps I Eff (poll_iteration world args history) (fun _ => True).
Proof.
  intros Hh Hf. unfold poll_iteration.
  eapply keeps_bind; [| intros _ _; apply keeps_time_sleep].
  apply keeps_try; [apply keeps_poll; assumption |].
  intros e. apply keeps_log, Eff_neutral. reflexivity.
Qed.

Lemma keeps_poll_loop n args history :
  Sel history ->
  (forall t d f, abspath (world t) (directory args) = Ok d ->
                 scanned (extension args) d f ->
                 file_ok world Gk Gv Eff f (magic args) d) ->
  keeps I Eff (poll_loop world n args history) (fun _ => True).
Proof.
  intros Hh Hf. induction n as [| n IH]; cbn.
  - eapply keeps_bind; [apply keeps_get_exit_flag | intros flag _].
    destruct flag; apply keeps_ret; exact Logic.I.
  - eapply keeps_bind; [apply keeps_get_exit_flag | intros flag _].
    destruct flag; [apply keeps_ret; exact Logic.I |].
    eapply keeps_bind; [apply keeps_poll_iteration; assumption | intros _ _].
    exact IH.
Qed.

Lemma keeps_main start_time args n :
  (forall t d f, abspath (world t) (directory args) = Ok d ->
                 scanned (extension args) d f ->
                 file_ok world Gk Gv Eff f (magic args) d) ->
  keeps I Eff (main world start_time args n) (fun _ => True).
Proof.
  intros Hf. unfold main, shutdown.
  eapply keeps_bind; [apply keeps_log, Eff_neutral; reflexivity | intros _ _].
  eapply keeps_bind; [apply keeps_new_dict | intros history Hh].
  eapply keeps_bind; [apply keeps_poll_loop; assumption | intros exited _].
  destruct exited; [| apply keeps_ret; exact Logic.I].
  eapply keeps_bind; [| intros _ _; apply keeps_ret; exact Logic.I].
  eapply keeps_bind; [apply keeps_log, Eff_neutral; reflexivity | intros _ _].
  eapply keeps_bind; [apply keeps_time_time | intros now _].
  apply keeps_log, Eff_neutral. reflexivity.
Qed.

End Invariants.

(** ** Recorded lines are never negative *)

Lemma lines_nonneg_state_ok s :
  lines_nonneg s <-> state_ok False 0 any_ref anything nonneg always s.
Proof.
  unfold lines_nonneg, state_ok, dict_ok. split.
  - intros H. split; [lia | split; [| exact Logic.I]].
    intros r _. split; [tauto |].
    eapply Forall_impl; [| exact (H r)]. intros kv Hkv. split; [exact Logic.I | exact Hkv].
  - intros [_ [H _]] r. destruct (H r Logic.I) as [_ Hr].
    eapply Forall_impl; [| exact Hr]. intros kv [_ Hkv]. exact Hkv.
Qed.

Lemma match_nonneg_neutral e : neutral e = true -> match_nonneg e.
Proof. destruct e as [l [] | | | | |]; cbn; try discriminate; tauto. Qed.

Lemma match_nonneg_file world file word curdir :
  file_ok world anything nonneg match_nonneg file word curdir.
Proof.
  unfold file_ok, anything, nonneg. cbn. repeat split. intros i Hi. exact Hi.
Qed.

Lemma nonneg_scan n i : nonneg n -> n < i \/ i = 0 -> nonneg i.
Proof. unfold nonneg. lia. Qed.

(** ** The poll loop *)

Lemma state_ok_any J s :
  J (clock s) (exit_flag s) ->
  state_ok False 0 any_ref anything any_line J s.
Proof.
  intros HJ. split; [lia | split; [| exact HJ]].
  intros r _. split; [tauto |]. apply Forall_forall. intros kv _.
  split; exact Logic.I.
Qed.

Lemma file_ok_any world file word curdir :
  file_ok world anything any_line any_effect file word curdir.
Proof. unfold file_ok, anything, any_effect. tauto. Qed.




Lemma poll_loop_exit world n args history s :
  exit_flag s = true ->
  poll_loop world n args history s = mkRun (Ok true) s [].
Proof.
  intros H. destruct n; cbn; unfold bind, get_exit_flag; cbn; rewrite H;
    reflexivity.
Qed.

Lemma poll_loop_continue world n args history s :
  exit_flag s = false ->
  poll_loop world (S n) args history s =
  (poll_iteration world args history ;; poll_loop world n args history) s.
Proof.
  intros H. cbn [poll_loop]. unfold bind at 1. unfold get_exit_flag at 1.
  cbn [out final effects]. rewrite H. cbn [app].
  symmetry. apply run_eta.
Qed.

Lemma try_except_ok {A} (m : M A) handler s a :
  out (m s) = Ok a -> try_except m handler s = m s.
Proof. intros H. unfold try_except. rewrite H. reflexivity. Qed.

Lemma try_except_raise {A} (m : M A) handler s e :
  out (m s) = Raise e ->
  try_except m handler s =
  mkRun (out (handler e (final (m s)))) (final (handler e (final (m s))))
        (effects (m s) ++ effects (handler e (final (m s)))).
Proof. intros H. unfold try_except. rewrite H. reflexivity. Qed.

Lemma poll_iteration_fault world args history s e :
  sleep_granted world (interval args) ->
  out (poll world args history s) = Raise e ->
  poll_iteration world args history s =
  mkRun (Ok tt)
    (mkState (S (clock (final (poll world args history s))))
       (sigflag (pending (world (clock (final (poll world args history s)))))
          (exit_flag (final (poll world args history s))))
       (heap (final (poll world args history s))))
    (effects (poll world args history s)
       ++ Log ERROR (MExn e)
       :: sigfx (pending (world (clock (final (poll world args history s)))))
       ++ [Sleep (interval args)]).
Proof.
  intros Hi He. unfold poll_iteration.
  rewrite (bind_ok _ _ s tt (final (poll world args history s))
             (effects (poll world args history s) ++ [Log ERROR (MExn e)])).
  - destruct Hi as [Hi Hos].
    rewrite (time_sleep_run world _ _ Hi), Hos. cbn [out final effects].
    rewrite <- app_assoc. reflexivity.
  - rewrite (try_except_raise _ _ _ _ He). reflexivity.
Qed.

Lemma poll_iteration_returns world args history s :
  sleep_granted world (interval args) ->
  out (poll_iteration world args history s) = Ok tt.
Proof.
  intros Hi. destruct (out (poll world args history s)) as [[] | e] eqn:E.
  - unfold poll_iteration.
    rewrite (bind_ok _ _ s tt (final (poll world args history s))
               (effects (poll world args history s))).
    + destruct Hi as [Hi Hos].
      rewrite (time_sleep_run world _ _ Hi), Hos. reflexivity.
    + rewrite (try_except_ok _ _ _ _ E). rewrite <- E. apply run_eta.
  - rewrite (poll_iteration_fault world args history s e Hi E). reflexivity.
Qed.

Lemma time_time_run world s :
  time_time world s =
  mkRun (Ok (time (world (clock s))))
        (mkState (S (clock s))
                 (sigflag (pending (world (clock s))) (exit_flag s)) (heap s))
        (sigfx (pending (world (clock s)))).
Proof.
  unfold time_time. rewrite (bind_ok _ _ _ _ _ _ (tick_run world s)).
  cbn. rewrite app_nil_r. reflexivity.
Qed.

Lemma main_after_exit world start_time args n :
  out (poll_loop world n args 0%nat started) = Ok true ->
  out (main world start_time args n init) = Ok true /\
  effects (main world start_time args n init) =
    Log INFO (MBanner "Starting")
      :: effects (poll_loop world n args 0%nat started)
      ++ Log INFO (MBanner "Exiting")
      :: sigfx (pending (world (clock (final (poll_loop world n args 0%nat started)))))
      ++ [Log INFO (MUptime
            (time (world (clock (final (poll_loop world n args 0%nat started))))
             - start_time))].
Proof.
  intros Hloop. unfold main.
  step (log_run INFO (MBanner "Starting") init).
  rewrite (bind_ok _ _ init 0%nat started []) by reflexivity.
  cbn [out final effects app].
  rewrite (bind_ok _ _ started true
             (final (poll_loop world n args 0%nat started))
             (effects (poll_loop world n args 0%nat started)))
    by (rewrite <- Hloop; apply run_eta).
  cbn [out final effects app].
  unfold shutdown.
  set (s := final (poll_loop world n args 0%nat started)).
  rewrite (bind_ok _ _ s tt
             (mkState (S (clock s))
                (sigflag (pending (world (clock s))) (exit_flag s)) (heap s))
             (Log INFO (MBanner "Exiting")
                :: sigfx (pending (world (clock s)))
                ++ [Log INFO (MUptime (time (world (clock s)) - start_time))])).
  - cbn. rewrite app_nil_r. split; reflexivity.
  - step (log_run INFO (MBanner "Exiting") s).
    step (time_time_run world s).
    rewrite log_run. reflexivity.
Qed.



Lemma try_log_returns (m : M unit) s :
  out (try_except m (fun e => log ERROR (MExn e)) s) = Ok tt.
Proof.
  unfold try_except. cbv zeta.
  destruct (out (m s)) as [[] | e] eqn:E; [exact E | reflexivity].
Qed.

Lemma poll_iteration_refused world args history s :
  interval args < 0 \/ sleep_max < interval args ->
  poll_iteration world args history s =
  mkRun (Raise (if (interval args <? - sleep_max)
                   || (sleep_max <? interval args)
                then OverflowError else ValueError))
        (final (try_except (poll world args history)
                  (fun e => log ERROR (MExn e)) s))
        (effects (try_except (poll world args history)
                    (fun e => log ERROR (MExn e)) s)).
Proof.
  intros Hi. unfold poll_iteration.
  rewrite (bind_ok _ _ s tt
             (final (try_except (poll world args history)
                       (fun e => log ERROR (MExn e)) s))
             (effects (try_except (poll world args history)
                         (fun e => log ERROR (MExn e)) s)))
    by (rewrite <- (try_log_returns (poll world args history) s);
        apply run_eta).
  rewrite (time_sleep_refuses world (interval args) _ Hi).
  cbn [out final effects]. rewrite app_nil_r. reflexivity.
Qed.




(** ** One cycle of [watch_dir], step by step *)

Lemma deref_run r s : deref r s = mkRun (Ok (dict_at r s)) s [].
Proof. reflexivity. Qed.

Lemma pop_run r k s :
  In k (keys (dict_at r s)) ->
  pop r k s =
  mkRun (Ok tt)
        (mkState (clock s) (exit_flag s)
                 (replace_nth r (dict_remove k (dict_at r s)) (heap s))) [].
Proof.
  intros H. unfold pop. step (deref_run r s).
  apply dict_mem_In in H. rewrite H. reflexivity.
Qed.

Lemma dict_at_nonempty_valid r s :
  dict_at r s <> [] -> (r < length (heap s))%nat.
Proof.
  intros H. destruct (Nat.lt_ge_cases r (length (heap s))) as [Hlt | Hge];
    [exact Hlt |].
  exfalso. apply H. unfold dict_at. apply nth_overflow. exact Hge.
Qed.

Lemma filter_all {A} (f : A -> bool) (l : list A) :
  (forall x, f x = true) -> filter f l = l.
Proof.
  intros H. induction l as [| x l IH]; cbn; [reflexivity |].
  rewrite H, IH. reflexivity.
Qed.

Lemma list_files_run world directory ext s :
  list_files world directory ext s =
  mkRun (match listdir (world (clock s)) directory with
         | Ok l => Ok (listed ext directory l)
         | Raise e => Raise e
         end)
        (called world s)
        (sigfx (pending (world (clock s))) ++ [ScanDir directory]).
Proof.
  unfold list_files, listed, called.
  destruct ext as [[| c e] |].
  - rewrite os_scandir_run.
    destruct (listdir (world (clock s)) directory); [| reflexivity].
    rewrite filter_all by reflexivity. reflexivity.
  - unfold bind. rewrite os_scandir_run. cbn [out final effects].
    destruct (listdir (world (clock s)) directory); cbn; [| reflexivity].
    rewrite app_nil_r. reflexivity.
  - rewrite os_scandir_run.
    destruct (listdir (world (clock s)) directory); [| reflexivity].
    rewrite filter_all by reflexivity. reflexivity.
Qed.

Lemma then_ret_run {A B} (m : M A) (b : B) s :
  bind m (fun _ => ret b) s =
  mkRun (match out (m s) with Ok _ => Ok b | Raise e => Raise e end)
        (final (m s)) (effects (m s)).
Proof.
  unfold bind. destruct (out (m s)); cbn; rewrite ?app_nil_r; reflexivity.
Qed.

(** The cycle when the directory exists and can be listed: the scan of the
    listed files followed by the reconciliation, from the state reached
    after three system calls. *)
Lemma watch_dir_body_present world directory word ext h wait s abs l :
  isdir (world (clock s)) directory = true ->
  abspath (world (S (clock s))) directory = Ok abs ->
  listdir (world (S (S (clock s)))) directory = Ok l ->
  watch_dir_body world directory word ext h wait s =
  mkRun (match out ((scan_files world (listed ext directory l) word h directory ;;
                     reconcile h (listed ext directory l))
                      (called world (called world (called world s)))) with
         | Ok _ => Ok h
         | Raise e => Raise e
         end)
        (final ((scan_files world (listed ext directory l) word h directory ;;
                 reconcile h (listed ext directory l))
                  (called world (called world (called world s)))))
        (listing_effects world directory abs s
           ++ effects ((scan_files world (listed ext directory l) word h directory ;;
                        reconcile h (listed ext directory l))
                         (called world (called world (called world s))))).
Proof.
  intros Hdir Habs Hlist. unfold watch_dir_body.
  pose proof (os_path_isdir_run world directory s) as H1.
  rewrite Hdir in H1. step H1.
  set (body := (scan_files world (listed ext directory l) word h directory ;;
                reconcile h (listed ext directory l))
                 (called world (called world (called world s)))).
  assert (Hblock :
    (abs <- os_path_abspath world directory ;;
     log DEBUG (MScanningDir abs) ;;
     files <- list_files world directory ext ;;
     scan_files world files word h directory ;;
     reconcile h files) (called world s) =
    mkRun (out body) (final body)
          (sigfx (pending (world (S (clock s))))
             ++ [Log DEBUG (MScanningDir abs)]
             ++ sigfx (pending (world (S (S (clock s)))))
             ++ [ScanDir directory] ++ effects body)).
  { pose proof (os_path_abspath_run world directory (called world s)) as H2.
    cbn [called clock] in H2. rewrite Habs in H2. step H2.
    step (log_run DEBUG (MScanningDir abs) (called world (called world s))).
    pose proof (list_files_run world directory ext
                  (called world (called world s))) as H3.
    cbn [called clock] in H3. rewrite Hlist in H3. step H3.
    fold body. cbn [app]. rewrite <- !app_assoc. reflexivity. }
  rewrite then_ret_run. fold (called world s). rewrite Hblock.
  cbn [out final effects]. unfold listing_effects.
  rewrite <- !app_assoc. reflexivity.
Qed.



Lemma reconcile_body_keep h files k s :
  existsb (String.eqb k) (map path files) = true ->
  reconcile_body h files k s = mkRun (Ok tt) s [].
Proof.
  intros E. unfold reconcile_body. rewrite E. cbn [negb].
  rewrite (bind_ok _ _ s [] s []) by reflexivity. reflexivity.
Qed.

Lemma reconcile_body_kill h files k s :
  existsb (String.eqb k) (map path files) = false ->
  In k (keys (dict_at h s)) ->
  reconcile_body h files k s =
  mkRun (Ok tt)
        (mkState (clock s) (exit_flag s)
           (replace_nth h (dict_remove k (dict_at h s)) (heap s)))
        [Log INFO (MRemoved k)].
Proof.
  intros E Hk. unfold reconcile_body. rewrite E. cbn [negb].
  rewrite (bind_ok _ _ s [k] s [Log INFO (MRemoved k)]) by reflexivity.
  cbn [out final effects pop_all].
  rewrite (bind_ok _ _ s tt _ [] (pop_run h k s Hk)). reflexivity.
Qed.

Lemma for_keys_changed d used ks body s :
  length (dict_at d s) <> used ->
  for_keys d used ks body s = mkRun (Raise RuntimeError) s [].
Proof.
  intros H. apply Nat.eqb_neq in H.
  destruct ks; cbn [for_keys]; unfold bind, deref; cbn [out final effects];
    fold (dict_at d s); rewrite H; reflexivity.
Qed.

(** The reconciliation loop, exactly: it ends normally when no remaining key
    is stale; at the first stale key it logs the removal, pops the entry, and
    the request for the next key raises. *)
Lemma for_keys_reconcile h files ks :
  forall s,
    (forall k, In k ks -> In k (keys (dict_at h s))) ->
    for_keys h (length (dict_at h s)) ks (reconcile_body h files) s =
    match find (stale files) ks with
    | None => mkRun (Ok tt) s []
    | Some k =>
        mkRun (Raise RuntimeError)
              (mkState (clock s) (exit_flag s)
                 (replace_nth h (dict_remove k (dict_at h s)) (heap s)))
              [Log INFO (MRemoved k)]
    end.
Proof.
  induction ks as [| k rest IH]; intros s Hks; cbn [for_keys find].
  - step (deref_run h s). rewrite Nat.eqb_refl. destruct s; reflexivity.
  - step (deref_run h s). rewrite Nat.eqb_refl. cbn [negb app].
    unfold stale at 1.
    destruct (existsb (String.eqb k) (map path files)) eqn:E; cbn [negb].
    + step (reconcile_body_keep h files k s E). cbn [app].
      rewrite (IH s).
      * destruct (find (stale files) rest); reflexivity.
      * intros k' Hk'. apply Hks. right. exact Hk'.
    + assert (Hk : In k (keys (dict_at h s))) by (apply Hks; left; reflexivity).
      assert (Hvalid : (h < length (heap s))%nat).
      { apply dict_at_nonempty_valid. intros Hnil. rewrite Hnil in Hk.
        exact Hk. }
      step (reconcile_body_kill h files k s E Hk).
      rewrite for_keys_changed; [reflexivity |].
      unfold dict_at at 1. cbn [heap].
      rewrite (nth_replace_nth_same h _ [] (heap s) Hvalid).
      pose proof (dict_remove_length k (dict_at h s) Hk) as Hlen. lia.
Qed.

Lemma reconcile_run h files s :
  reconcile h files s =
  match find (stale files) (keys (dict_at h s)) with
  | None => mkRun (Ok tt) s []
  | Some k =>
      mkRun (Raise RuntimeError)
            (mkState (clock s) (exit_flag s)
               (replace_nth h (dict_remove k (dict_at h s)) (heap s)))
            [Log INFO (MRemoved k)]
  end.
Proof.
  unfold reconcile, for_dict. step (deref_run h s).
  rewrite (for_keys_reconcile h files (keys (dict_at h s)) s (fun k H => H)).
  destruct (find (stale files) (keys (dict_at h s))); reflexivity.
Qed.

(** ** A tracked file that vanishes between the size probe and the read *)











(** ** Removal reconciliation *)

Lemma no_removal_neutral e : neutral e = true -> no_removal e.
Proof.
  unfold no_removal. destruct e as [l [] | | | | |]; cbn; try discriminate;
    reflexivity.
Qed.

Lemma sigfx_no_removal p : Forall no_removal (sigfx p).
Proof. destruct p; repeat constructor. Qed.

Lemma file_ok_no_removal world file word curdir :
  file_ok world anything any_line no_removal file word curdir.
Proof. unfold file_ok, anything, any_line, no_removal. cbn. tauto. Qed.

Lemma scan_files_no_removal world files word h directory s :
  Forall no_removal (effects (scan_files world files word h directory s)).
Proof.
  destruct (keeps_scan_files world False 0 any_ref anything any_line always
              no_removal (fun _ _ => Logic.I) Logic.I (fun _ _ _ _ => Logic.I)
              (fun _ _ _ => Logic.I) no_removal_neutral
              files word h directory Logic.I
              (fun f _ _ => file_ok_no_removal world f word directory)
              s (state_ok_any always s Logic.I))
    as [_ [H _]].
  exact H.
Qed.

Lemma in_no_removal k l :
  Forall no_removal l -> ~ In (Log INFO (MRemoved k)) l.
Proof.
  intros H Hin. rewrite Forall_forall in H. specialize (H _ Hin).
  discriminate H.
Qed.

Lemma stale_not_listed files k : stale files k = true -> ~ In k (map path files).
Proof.
  unfold stale. intros H Hin. apply negb_true_iff in H.
  assert (Hex : existsb (String.eqb k) (map path files) = true).
  { apply existsb_exists. exists k. split; [exact Hin | apply String.eqb_refl]. }
  congruence.
Qed.

(** After the scan, the working dictionary holds only keys it had before or
    paths of listed files; with distinct keys where it had distinct keys. *)
Lemma scan_files_keys world (U : Prop) files word h directory s :
  (h < length (heap s))%nat ->
  (U -> store_wf s) ->
  dict_ok U (known_or_listed (keys (dict_at h s)) files) any_line
          (dict_at h (final (scan_files world files word h directory s))).
Proof.
  intros Hvalid Hwf.
  assert (Hs : state_ok U (length (heap s)) (own_or_new h (length (heap s)))
                 (known_or_listed (keys (dict_at h s)) files) any_line always s).
  { split; [lia | split; [| exact Logic.I]].
    intros r [-> | Hr].
    - split; [intros HU; apply (Hwf HU) |].
      apply Forall_forall. intros kv Hkv. split; [| exact Logic.I].
      left. unfold keys. apply in_map. exact Hkv.
    - replace (dict_at r s) with (@nil (string * record))
        by (symmetry; apply nth_overflow; exact Hr).
      apply dict_ok_nil. }
  destruct (keeps_scan_files world U (length (heap s))
              (own_or_new h (length (heap s)))
              (known_or_listed (keys (dict_at h s)) files) any_line always
              any_effect (fun r Hr => or_intror Hr) Logic.I
              (fun _ _ _ _ => Logic.I) (fun _ _ _ => Logic.I)
              (fun _ _ => Logic.I)
              files word h directory (or_introl eq_refl))
    with (s := s) as [[_ [H _]] _].
  - intros f Hin _. unfold file_ok, any_effect, any_line.
    repeat split. right. apply in_map. exact Hin.
  - exact Hs.
  - apply H. left. reflexivity.
Qed.

(** The scan followed by the reconciliation: a removal is logged only for a
    key the dictionary had before the cycle, that no listed entry has for
    path, and that the dictionary no longer has afterwards. *)
Lemma cycle_removal world files word h directory s k :
  (h < length (heap s))%nat ->
  store_wf s ->
  In (Log INFO (MRemoved k))
     (effects ((scan_files world files word h directory ;;
                reconcile h files) s)) ->
  In k (keys (dict_at h s)) /\
  ~ In k (map path files) /\
  ~ In k (keys (dict_at h (final ((scan_files world files word h directory ;;
                                   reconcile h files) s)))).
Proof.
  intros Hvalid Hwf.
  pose proof (scan_files_keys world True files word h directory s Hvalid
                (fun _ => Hwf)) as Hd3.
  pose proof (scan_files_no_removal world files word h directory s) as Hquiet.
  unfold bind.
  destruct (out (scan_files world files word h directory s)) as [[] | e];
    cbn [out final effects].
  - set (s3 := final (scan_files world files word h directory s)) in *.
    rewrite reconcile_run.
    destruct (find (stale files) (keys (dict_at h s3))) as [k0 |] eqn:E;
      cbn [out final effects]; intros Hin; apply in_app_or in Hin;
      destruct Hin as [Hin | Hin];
      try (exfalso; exact (in_no_removal k _ Hquiet Hin)); [| destruct Hin].
    destruct Hin as [Hin | []]. injection Hin as <-.
    apply find_some in E. destruct E as [Hk Hstale].
    pose proof (stale_not_listed files k0 Hstale) as Hnot.
    split; [| split; [exact Hnot |]].
    + destruct (dict_ok_key True _ _ k0 _ Hd3 Hk) as [H | H];
        [exact H | contradiction].
    + assert (Hv3 : (h < length (heap s3))%nat).
      { apply dict_at_nonempty_valid. intros Hnil. rewrite Hnil in Hk.
        exact Hk. }
      unfold dict_at at 1. cbn [heap].
      rewrite (nth_replace_nth_same h _ [] (heap s3) Hv3).
      apply dict_remove_not_in. destruct Hd3 as [Hnd _]. exact (Hnd Logic.I).
  - intros Hin. exfalso. exact (in_no_removal k _ Hquiet Hin).
Qed.

(** A cycle that does not get to scanning logs no removal. *)
Lemma watch_dir_body_absent world directory word ext h wait s :
  isdir (world (clock s)) directory = false \/
  (exists e, abspath (world (S (clock s))) directory = Raise e) \/
  (exists e, listdir (world (S (S (clock s)))) directory = Raise e) ->
  Forall no_removal (effects (watch_dir_body world directory word ext h wait s)).
Proof.
  intros Hcase. unfold watch_dir_body.
  pose proof (os_path_isdir_run world directory s) as H1.
  destruct (isdir (world (clock s)) directory) eqn:Hdir.
  - step H1. rewrite then_ret_run. cbn [effects]. fold (called world s).
    apply Forall_app. split.
    { apply Forall_app. split; [apply sigfx_no_removal | repeat constructor]. }
    pose proof (os_path_abspath_run world directory (called world s)) as H2.
    cbn [called clock] in H2.
    destruct (abspath (world (S (clock s))) directory) as [abs | e] eqn:Habs.
    + step H2. apply Forall_app. split; [apply sigfx_no_removal |].
      step (log_run DEBUG (MScanningDir abs) (called world (called world s))).
      apply Forall_app. split; [repeat constructor |].
      pose proof (list_files_run world directory ext
                    (called world (called world s))) as H3.
      cbn [called clock] in H3.
      destruct (listdir (world (S (S (clock s)))) directory) as [l | e]
        eqn:Hlist.
      * exfalso. destruct Hcase as [H | [[e H] | [e H]]]; discriminate.
      * stop H3. apply Forall_app. split;
          [apply sigfx_no_removal | repeat constructor].
    + stop H2. apply sigfx_no_removal.
  - step H1. rewrite then_ret_run. cbn [effects]. fold (called world s).
    apply Forall_app. split.
    { apply Forall_app. split; [apply sigfx_no_removal | repeat constructor]. }
    step (log_run WARNING (MDirNotFound directory) (called world s)).
    apply Forall_app. split; [repeat constructor |].
    destruct (time_sleep_effects world wait (called world s)) as [-> | ->];
      [constructor |].
    apply Forall_app. split; [apply sigfx_no_removal | repeat constructor].
Qed.

Lemma watch_dir_body_removal world directory word ext h wait s k :
  (h < length (heap s))%nat ->
  store_wf s ->
  In (Log INFO (MRemoved k))
     (effects (watch_dir_body world directory word ext h wait s)) ->
  In k (keys (dict_at h s)) /\
  ~ In k (keys (dict_at h (final (watch_dir_body world directory word ext h
                                    wait s)))) /\
  exists l,
    listdir (world (S (S (clock s)))) directory = Ok l /\
    ~ In k (map path (listed ext directory l)).
Proof.
  intros Hvalid Hwf Hin.
  destruct (isdir (world (clock s)) directory) eqn:Hdir;
    [| exfalso; refine (in_no_removal k _ _ Hin);
       apply watch_dir_body_absent; left; exact Hdir].
  destruct (abspath (world (S (clock s))) directory) as [abs | e] eqn:Habs;
    [| exfalso; refine (in_no_removal k _ _ Hin);
       apply watch_dir_body_absent; right; left; exists e; exact Habs].
  destruct (listdir (world (S (S (clock s)))) directory) as [l | e] eqn:Hlist;
    [| exfalso; refine (in_no_removal k _ _ Hin);
       apply watch_dir_body_absent; right; right; exists e; exact Hlist].
  rewrite (watch_dir_body_present world directory word ext h wait s abs l
             Hdir Habs Hlist) in Hin |- *.
  cbn [out final effects] in Hin |- *.
  apply in_app_or in Hin. destruct Hin as [Hin | Hin].
  { exfalso. refine (in_no_removal k _ _ Hin). unfold listing_effects.
    repeat (apply Forall_app; split); try apply sigfx_no_removal;
      repeat constructor. }
  destruct (cycle_removal world (listed ext directory l) word h directory
              (called world (called world (called world s))) k Hvalid Hwf Hin)
    as [H1 [H2 H3]].
  split; [exact H1 | split; [exact H3 |]].
  exists l. split; [reflexivity | exact H2].
Qed.

Lemma watch_dir_removal world directory word ext history wait s k :
  store_wf s ->
  In (Log INFO (MRemoved k))
     (effects (watch_dir world directory word ext history wait s)) ->
  In k (keys (dict_of history s)) /\
  (forall h, history = Some h ->
     ~ In k (keys (dict_at h (final (watch_dir world directory word ext
                                       history wait s))))) /\
  exists l,
    listdir (world (S (S (clock s)))) directory = Ok l /\
    ~ In k (map path (listed ext directory l)).
Proof.
  intros Hwf. unfold watch_dir.
  assert (Hcase : (exists h, history = Some h /\ dict_at h s <> [])
                  \/ dict_of history s = []).
  { destruct history as [h |]; [| right; reflexivity].
    cbn. destruct (dict_at h s) eqn:E; [right; reflexivity |].
    left. exists h. split; [reflexivity | rewrite E; discriminate]. }
  destruct Hcase as [[h [-> Hne]] | Hempty].
  - step (or_new_shared h s Hne). cbn [app]. intros Hin.
    destruct (watch_dir_body_removal world directory word ext h wait s k
                (dict_at_nonempty_valid h s Hne) Hwf Hin) as [H1 [H2 H3]].
    split; [exact H1 | split; [| exact H3]].
    intros h' Hh'. injection Hh' as <-. exact H2.
  - step (or_new_fresh history s Hempty). cbn [app]. intros Hin. exfalso.
    destruct (watch_dir_body_removal world directory word ext
                (length (heap s)) wait
                (mkState (clock s) (exit_flag s) (heap s ++ [[]])) k)
      as [H1 _].
    + cbn [heap]. rewrite length_app. cbn. lia.
    + intros r. unfold dict_at. cbn [heap]. rewrite nth_alloc. apply Hwf.
    + exact Hin.
    + unfold dict_at in H1. cbn [heap] in H1.
      rewrite nth_alloc, nth_overflow in H1 by lia. exact H1.
Qed.

(** X13: removals are of stale paths.  In a store whose dictionaries have
    distinct keys, whenever [watch_dir] logs the removal of a path, that path
    was a key of the history it was given, it is the path of no entry of
    this cycle's filtered listing, and it is no longer a key of that history
    when [watch_dir] ends. *)
Theorem removals_are_of_stale_paths :
  forall world directory word ext history wait s k,
    store_wf s ->
    In (Log INFO (MRemoved k))
       (effects (watch_dir world directory word ext history wait s)) ->
    In k (keys (dict_of history s)) /\
    (forall h, history = Some h ->
       ~ In k (keys (dict_at h (final (watch_dir world directory word ext
                                         history wait s))))) /\
    exists l,
      listdir (world (S (S (clock s)))) directory = Ok l /\
      ~ In k (map path (listed ext directory l)).
Proof. intros. eapply watch_dir_removal; eassumption. Qed.

Lemma removals_are_of_stale_paths_witness :
  In "/d/app.log" (keys (dict_of (Some 0%nat) tracked)) /\
  ~ In "/d/app.log"
      (keys (dict_at 0%nat
               (final (watch_dir emptied "/d" "ERROR" None (Some 0%nat) 5
                         tracked)))).
Proof.
  destruct (removals_are_of_stale_paths emptied "/d" "ERROR" None (Some 0%nat)
              5 tracked "/d/app.log")
    as [H1 [H2 _]].
  - intros r. unfold dict_at, tracked. cbn.
    destruct r as [| [| r]]; cbn; repeat constructor. cbn. tauto.
  - vm_compute. tauto.
  - split; [exact H1 | exact (H2 0%nat eq_refl)].
Defined.

(** ** The extension filter *)

Lemma eff_visible_neutral world d ext e :
  neutral e = true -> eff_visible world d ext e.
Proof. destruct e as [l [] | | | | |]; cbn; try discriminate; tauto. Qed.

Lemma file_ok_visible world d ext f word :
  endswith (path f) ext = true ->
  path f = join d (name f) ->
  file_ok world (ends_with ext) any_line (eff_visible world d ext) f word d.
Proof.
  intros Hv Hp. unfold file_ok, ends_with. cbn.
  split; [exact Hv |]. split; [exact Hv |].
  split; [rewrite <- Hp; exact Hv |]. split; [exact Hv |].
  split.
  - intros t q Hq. exists t, (path f). split; [exact Hv | exact Hq].
  - intros i _. rewrite <- Hp. exact Hv.
Qed.

(** In every run of [main] with a filter, every effect that names a file
    names one whose path ends with the filter, and so does every key of
    every dictionary. *)
Lemma main_sees_only_visible world start_time args n c e d :
  extension args = Some (String c e) ->
  (forall t d', abspath (world t) (directory args) = Ok d' -> d' = d) ->
  Forall (eff_visible world d (String c e))
         (effects (main world start_time args n init)) /\
  (forall h k, In k (keys (dict_at h (final (main world start_time args n init)))) ->
               endswith k (String c e) = true).
Proof.
  intros Hext Hd.
  destruct (keeps_main world False 0 any_ref (ends_with (String c e)) any_line
              always (eff_visible world d (String c e))
              (fun _ _ => Logic.I) Logic.I (fun _ _ _ _ => Logic.I)
              (fun _ _ _ => Logic.I) (eff_visible_neutral world d (String c e))
              (fun k Hk => Hk) start_time args n)
    with (s := init) as [[_ [Hheap _]] [Heff _]].
  - intros t d' f Habs [Hv [Hp _]]. rewrite (Hd t d' Habs) in *.
    rewrite Hext in Hv. apply file_ok_visible; assumption.
  - split; [cbn; lia | split; [| exact Logic.I]].
    intros r _. unfold dict_at. cbn. destruct r; apply dict_ok_nil.
  - split; [exact Heff |].
    intros h k Hk.
    exact (dict_ok_key False _ _ k _ (Hheap h Logic.I) Hk).
Qed.

(** C6, as the code has it: the filter is tested on the path.  With a
    non-empty filter, and the directory argument resolving to [d], an entry
    [name] of [d] whose path does not end with the filter is, over any number
    of polls, never passed to [scan_file] nor probed for its size, never
    logged as discovered, matched or removed, and its path is never a key of
    a history dictionary; every file that is opened is one whose path ends
    with the filter. *)
Theorem filtered_out_entries_are_invisible :
  forall world start_time args n c e d name,
    extension args = Some (String c e) ->
    (forall t d', abspath (world t) (directory args) = Ok d' -> d' = d) ->
    endswith (join d name) (String c e) = false ->
    (forall eff, In eff (effects (main world start_time args n init)) ->
                 ~ concerns d name eff) /\
    (forall h, ~ In (join d name)
                    (keys (dict_at h (final (main world start_time args n init))))) /\
    (forall q, In (Open q) (effects (main world start_time args n init)) ->
               exists t p, endswith p (String c e) = true /\
                           abspath (world t) p = Ok q).
Proof.
  intros world start_time args n c e d name Hext Hd Hout.
  destruct (main_sees_only_visible world start_time args n c e d Hext Hd)
    as [Heff Hkeys].
  rewrite Forall_forall in Heff.
  split; [| split].
  - intros eff Hin Hc. specialize (Heff eff Hin).
    destruct eff as [l [] | | | | |]; cbn in Hc, Heff; try contradiction.
    + rewrite Hc in Heff. congruence.
    + destruct Hc as [-> ->]. congruence.
    + subst. congruence.
    + subst. congruence.
    + subst. congruence.
  - intros h Hin. specialize (Hkeys h _ Hin). congruence.
  - intros q Hin. exact (Heff _ Hin).
Qed.

Lemma filtered_out_entries_are_invisible_witness :
  (forall eff, In eff (effects (main with_txt 0 watch_d_log 3 init)) ->
               ~ concerns "/d" "a.txt" eff) /\
  (forall h, ~ In "/d/a.txt"
                  (keys (dict_at h (final (main with_txt 0 watch_d_log 3 init))))).
Proof.
  destruct (filtered_out_entries_are_invisible with_txt 0 watch_d_log 3
              "."%char "log" "/d" "a.txt") as [H1 [H2 _]].
  - reflexivity.
  - intros t d' H. cbn in H. injection H as <-. reflexivity.
  - reflexivity.
  - split; [exact H1 | exact H2].
Defined.

(** ** Further facts about runs of [main] *)

(** The dictionaries of a run of [main] have distinct keys. *)
Lemma main_store_wf world start_time args n :
  store_wf (final (main world start_time args n init)).
Proof.
  destruct (keeps_main world True 0 any_ref anything any_line always
              any_effect (fun _ _ => Logic.I) Logic.I (fun _ _ _ _ => Logic.I)
              (fun _ _ _ => Logic.I) (fun _ _ => Logic.I) (fun _ _ => Logic.I)
              start_time args n
              (fun t d f _ _ => file_ok_any world f (magic args) d))
    with (s := init) as [[_ [H _]] _].
  - split; [cbn; lia | split; [| exact Logic.I]].
    intros r _. unfold dict_at. cbn. destruct r; apply dict_ok_nil.
  - intros r. destruct (H r Logic.I) as [Hnd _]. exact (Hnd Logic.I).
Qed.

(** The reconciliation at work: [app.log] is tracked and [/d] is now empty.
    The removal is logged, the entry is popped, and the loop over the
    dictionary then raises [RuntimeError]. *)
Lemma reconcile_raises_after_removal :
  out (watch_dir emptied "/d" "ERROR" None (Some 0%nat) 5 tracked) =
    Raise RuntimeError /\
  effects (watch_dir emptied "/d" "ERROR" None (Some 0%nat) 5 tracked) =
    [IsDir "/d"; Log DEBUG (MScanningDir "/d"); ScanDir "/d";
     Log INFO (MRemoved "/d/app.log")] /\
  dict_at 0%nat (final (watch_dir emptied "/d" "ERROR" None (Some 0%nat) 5
                          tracked)) = [].
Proof. repeat split; vm_compute; reflexivity. Qed.

(** ** The banner *)

Lemma len_app (s1 s2 : str) : len (s1 ++ s2)%list = len s1 + len s2.
Proof. unfold len. rewrite length_app. lia. Qed.

Lemma len_str_times n s : len (str_times n s) = Z.of_nat n * len s.
Proof.
  induction n as [| n IH]; cbn [str_times].
  - reflexivity.
  - rewrite len_app, IH, Nat2Z.inj_succ. lia.
Qed.

Lemma int_of_half r : int_of (Qdiv (inject_Z r) (inject_Z 2)) = Z.quot r 2.
Proof. unfold int_of. cbn. rewrite Z.mul_1_r. reflexivity. Qed.

Lemma int_of_other_half r :
  int_of (Qminus (inject_Z r) (Qdiv (inject_Z r) (inject_Z 2))) = Z.quot r 2.
Proof.
  unfold int_of. cbn. f_equal. lia.
Qed.

Lemma len_nonneg s : 0 <= len s.
Proof. unfold len. lia. Qed.

Lemma str_mul_fits s n :
  1 <= n <= index_max -> len s * n <= index_max ->
  str_mul s n = Ok (str_times (Z.to_nat n) s).
Proof.
  unfold index_max. intros Hn Hlen. unfold str_mul, index_max.
  replace ((n <? - (2 ^ 63 - 1) - 1) || (2 ^ 63 - 1 <? n)) with false
    by (symmetry; apply orb_false_iff; split; apply Z.ltb_ge; lia).
  replace (n <? 1) with false by (symmetry; apply Z.ltb_ge; lia).
  replace (2 ^ 63 - 1 <? len s * n) with false
    by (symmetry; apply Z.ltb_ge; lia).
  reflexivity.
Qed.

Lemma str_mul_cases s n :
  str_mul s n = Raise OverflowError \/ exists r, str_mul s n = Ok r.
Proof.
  unfold str_mul.
  destruct ((n <? - index_max - 1) || (index_max <? n)); [left; reflexivity |].
  destruct (n <? 1); [right; eexists; reflexivity |].
  destruct (index_max <? len s * n);
    [left; reflexivity | right; eexists; reflexivity].
Qed.

(** X1: for a text that is not empty, a delimiter of one character and a
    length that leaves room ([len(text) + 3 <= length]), [banner] returns the
    text between two spaces and two equal runs of the delimiter, each of
    [(length - len(text) + 2) // 2] characters.  The result is therefore
    longer than [length]: by 4 characters when [length - len(text)] is even,
    by 3 when it is odd.  Texts and delimiters are sequences of code points,
    whose [len] is their number of characters; the bound on [length] is the
    range in which the floats of the source are exact. *)
Theorem banner_is_longer_than_asked :
  forall text delim length,
    text <> [] ->
    len delim = 1 ->
    len text + 3 <= length ->
    length < 2 ^ 53 ->
    let k := (length - len text + 2) / 2 in
    let run := str_times (Z.to_nat k) delim in
    banner text delim length =
      Ok (run ++ [space] ++ text ++ [space] ++ run)%list /\
    len (run ++ [space] ++ text ++ [space] ++ run)%list =
      length + 4 - (length - len text) mod 2.
Proof.
  intros text delim length Htext Hdelim Hroom Hmax k run.
  pose proof (len_nonneg text) as Hlen.
  assert (Hk : Z.quot (length - len text + 2) 2 = k).
  { unfold k. apply Z.quot_div_nonneg; lia. }
  assert (Hk1 : 1 <= k <= index_max).
  { unfold k, index_max. split.
    - apply Z.div_le_lower_bound; lia.
    - assert ((length - len text + 2) / 2 < 2 ^ 53)
        by (apply Z.div_lt_upper_bound; lia).
      lia. }
  split.
  - unfold banner. destruct text as [| c text']; [contradiction |].
    replace (len (c :: text') + 2 + len delim >? length) with false
      by (symmetry; rewrite Z.gtb_ltb; apply Z.ltb_ge; lia).
    cbv zeta. unfold banner_count. rewrite Hdelim. cbn [Z.eqb Pos.eqb].
    rewrite int_of_half, int_of_other_half, Hk.
    rewrite (str_mul_fits delim k Hk1) by (rewrite Hdelim; lia).
    reflexivity.
  - rewrite !len_app. unfold run. rewrite !len_str_times, Hdelim.
    rewrite Z2Nat.id by lia. change (len [space]) with 1. unfold k.
    pose proof (Z.div_mod (length - len text + 2) 2 ltac:(lia)) as Hdm.
    replace ((length - len text + 2) mod 2) with ((length - len text) mod 2)
      in Hdm
      by (replace (length - len text + 2) with (length - len text + 1 * 2)
            by lia; rewrite Z.mod_add by lia; reflexivity).
    lia.
Qed.

Lemma banner_is_longer_than_asked_witness :
  banner (str_of "Starting") (str_of "*") 40 =
    Ok (str_of "***************** Starting *****************") /\
  len (str_of "***************** Starting *****************") = 44.
Proof.
  destruct (banner_is_longer_than_asked (str_of "Starting") (str_of "*") 40)
    as [H1 H2].
  - discriminate.
  - reflexivity.
  - cbn. lia.
  - reflexivity.
  - split; [exact H1 | exact H2].
Defined.

(** X2: for a length below [2^53].  (1) A text that is not empty and fits
    ([len(text) + 2 + len(delim) <= length]) makes [banner] raise when the
    delimiter does not have exactly one character: [ZeroDivisionError] for
    the empty delimiter, [TypeError] for a longer one.  (2) [banner] raises
    one of these two exceptions in no other case. *)
Theorem banner_raises_on_other_delimiters :
  forall text delim length,
    length < 2 ^ 53 ->
    (text <> [] -> len text + 2 + len delim <= length -> len delim <> 1 ->
     banner text delim length =
       Raise (if len delim =? 0 then ZeroDivisionError else TypeError)) /\
    (banner text delim length = Raise ZeroDivisionError \/
     banner text delim length = Raise TypeError ->
     text <> [] /\ len text + 2 + len delim <= length /\ len delim <> 1).
Proof.
  intros text delim length _. split.
  - intros Htext Hfit Hdelim. unfold banner.
    destruct text as [| c text']; [contradiction |].
    replace (len (c :: text') + 2 + len delim >? length) with false
      by (symmetry; rewrite Z.gtb_ltb; apply Z.ltb_ge; lia).
    cbv zeta. unfold banner_count.
    replace (len delim =? 1) with false
      by (symmetry; apply Z.eqb_neq; exact Hdelim).
    destruct (len delim =? 0); reflexivity.
  - intros Hraise.
    assert (Hmul : forall s n (r : Prop),
              (str_mul s n = Raise ZeroDivisionError \/
               str_mul s n = Raise TypeError) -> r).
    { intros s n r [H | H];
        destruct (str_mul_cases s n) as [E | [x E]]; rewrite E in H;
        discriminate H. }
    unfold banner in Hraise.
    destruct text as [| c text']; [exact (Hmul _ _ _ Hraise) |].
    split; [discriminate |].
    destruct (Z.gtb_spec (len (c :: text') + 2 + len delim) length)
      as [Hgt | Hle];
      [destruct Hraise as [H | H]; discriminate H |].
    split; [exact Hle |].
    intros Hone. cbv zeta in Hraise. unfold banner_count in Hraise.
    rewrite Hone in Hraise. cbn [Z.eqb Pos.eqb] in Hraise.
    destruct (str_mul_cases delim
                (int_of (Qdiv (inject_Z (length - len (c :: text') + 2))
                           (inject_Z 2)))) as [E | [x E]];
      rewrite E in Hraise;
      [destruct Hraise as [H | H]; discriminate H |].
    destruct (str_mul_cases delim
                (int_of (Qminus (inject_Z (length - len (c :: text') + 2))
                           (Qdiv (inject_Z (length - len (c :: text') + 2))
                              (inject_Z 2))))) as [E' | [x' E']];
      rewrite E' in Hraise; destruct Hraise as [H | H]; discriminate H.
Qed.

Lemma banner_raises_on_other_delimiters_witness :
  banner (str_of "Exiting") (str_of "-=") 40 = Raise TypeError.
Proof.
  destruct (banner_raises_on_other_delimiters (str_of "Exiting") (str_of "-=")
              40 ltac:(reflexivity)) as [H _].
  apply H; [discriminate | cbn; lia | cbn; lia].
Defined.

(** ** What a read of a file reports *)

Lemma last_default {A} (l : list A) :
  forall b d d', last (b :: l) d = last (b :: l) d'.
Proof.
  induction l as [| c l IH]; intros b d d'; [reflexivity |].
  change (last (c :: l) d = last (c :: l) d'). apply IH.
Qed.

Lemma last_cons {A} (a d : A) (l : list A) : last (a :: l) d = last l a.
Proof.
  destruct l as [| b l]; [reflexivity |].
  change (last (b :: l) d = last (b :: l) a). apply last_default.
Qed.

Lemma scan_lines_later word file_name lines :
  forall max_num j s,
    max_num < j - 1 -> 2 <= j ->
    scan_lines word file_name max_num j lines s =
    mkRun (Ok (last (later_matches word j lines) max_num)) s
          (map (found word file_name) (later_matches word j lines)).
Proof.
  induction lines as [| line rest IH]; intros max_num j s Hm Hj;
    cbn [scan_lines later_matches].
  - reflexivity.
  - replace (max_num <? j - 1) with true by (symmetry; apply Z.ltb_lt; lia).
    replace (j =? 1) with false by (symmetry; apply Z.eqb_neq; lia).
    cbn [andb]. rewrite orb_false_r.
    destruct (str_in word line).
    + step (log_run INFO (MFound word file_name (j - 1)) s).
      rewrite IH by lia. cbn [out final effects map app].
      rewrite last_cons. reflexivity.
    + apply IH; lia.
Qed.

(** X3: what one read of a file reports, when the recorded line is not
    negative.  A file of fewer than two lines reports nothing, even if its
    line holds the word.  A file of two lines or more reports "line 0" for
    its second line whatever that line holds, then, in file order, "line
    j - 1" for every later line of index [j >= 2] that holds the word, and
    nothing else: the recorded line plays no part.  The loop changes no
    state and yields the last line reported, or the recorded line when it
    reported nothing. *)
Theorem scan_lines_reports :
  forall word file_name max_num lines s,
    0 <= max_num ->
    scan_lines word file_name max_num 0 lines s =
    mkRun (Ok (last (reported word lines) max_num)) s
          (map (found word file_name) (reported word lines)).
Proof.
  intros word file_name max_num lines s Hm.
  destruct lines as [| l0 [| l1 rest]]; cbn [scan_lines reported].
  - reflexivity.
  - replace (max_num <? 0 - 1) with false by (symmetry; apply Z.ltb_ge; lia).
    reflexivity.
  - replace (max_num <? 0 - 1) with false by (symmetry; apply Z.ltb_ge; lia).
    cbn [andb orb Z.eqb]. change (0 + 1 =? 1) with true. rewrite orb_true_r.
    step (log_run INFO (MFound word file_name (0 + 1 - 1)) s).
    rewrite (scan_lines_later word file_name rest (0 + 1 - 1) (0 + 1 + 1) s)
      by lia.
    cbn [out final effects map app]. rewrite last_cons. reflexivity.
Qed.

Lemma scan_lines_reports_witness :
  scan_lines "ERROR" "app.log" 7 0 four_lines init =
  mkRun (Ok 2) init [found "ERROR" "app.log" 0; found "ERROR" "app.log" 2].
Proof.
  rewrite (scan_lines_reports "ERROR" "app.log" 7 four_lines init)
    by lia.
  reflexivity.
Defined.

(** ** [scan_file]: discovery and the record it leaves *)

Lemma scan_file_body_halves world file word h curdir :
  scan_file_body world file word h curdir =
  (log DEBUG (MScanning file word) ;;
   tracked <- contains h (path file) ;;
   unchanged <- size_probe world file curdir h tracked ;;
   if unchanged then ret h else reread world file word h).
Proof. reflexivity. Qed.

Lemma dict_mem_get k d : dict_mem k d = true -> exists v, dict_get k d = Some v.
Proof.
  unfold dict_mem, keys. induction d as [| [k' v'] d IH]; cbn;
    [discriminate |].
  destruct (String.eqb k k'); [eauto | exact IH].
Qed.

Lemma dict_get_set k v d : dict_get k (dict_set k v d) = Some v.
Proof.
  induction d as [| [k' v'] d IH]; cbn.
  - rewrite String.eqb_refl. reflexivity.
  - destruct (String.eqb k k') eqn:E; cbn; rewrite E; [reflexivity | exact IH].
Qed.

Lemma scan_lines_pure word file_name lines :
  forall max_num j s,
    final (scan_lines word file_name max_num j lines s) = s /\
    exists m, out (scan_lines word file_name max_num j lines s) = Ok m.
Proof.
  induction lines as [| line rest IH]; intros max_num j s; cbn [scan_lines].
  - split; [reflexivity | eexists; reflexivity].
  - destruct ((max_num <? j - 1) && str_in word line || (j =? 1)).
    + step (log_run INFO (MFound word file_name (j - 1)) s). apply IH.
    + apply IH.
Qed.

Lemma no_discovery_neutral e : neutral e = true -> no_discovery e.
Proof.
  unfold no_discovery. destruct e as [l [] | | | | |]; cbn; try discriminate;
    reflexivity.
Qed.

(** The second half logs no discovery. *)
Lemma reread_no_discovery world file word h s :
  Forall no_discovery (effects (reread world file word h s)).
Proof.
  assert (K : keeps (state_ok False 0 any_ref anything any_line always)
                    no_discovery (reread world file word h) (fun _ => True)).
  { unfold reread.
    eapply keeps_bind;
      [apply keeps_os_path_abspath;
         [intros; exact Logic.I | exact no_discovery_neutral]
      | intros p _].
    eapply keeps_bind;
      [apply keeps_open_readlines;
         [intros; exact Logic.I | exact no_discovery_neutral | reflexivity]
      | intros lines _].
    eapply keeps_bind;
      [apply keeps_getitem; exact Logic.I | intros rec _].
    eapply keeps_bind;
      [apply keeps_scan_lines;
         [intros; exact Logic.I | intros; reflexivity | exact Logic.I]
      | intros m _].
    eapply keeps_bind;
      [apply keeps_os_stat_size;
         [intros; exact Logic.I | exact no_discovery_neutral | reflexivity]
      | intros size _].
    eapply keeps_bind;
      [apply keeps_setitem; exact Logic.I | intros _ _].
    apply keeps_ret. exact Logic.I. }
  destruct (K s (state_ok_any always s Logic.I)) as [_ [H _]]. exact H.
Qed.

Lemma bind_effects {A B} (m : M A) (f : A -> M B) s :
  effects (bind m f s) =
  (effects (m s)
     ++ match out (m s) with
        | Ok a => effects (f a (final (m s)))
        | Raise _ => []
        end)%list.
Proof.
  unfold bind. cbv zeta. destruct (out (m s)); cbn [effects];
    rewrite ?app_nil_r; reflexivity.
Qed.

Lemma no_discovery_existsb l :
  Forall no_discovery l -> existsb is_discovery l = false.
Proof.
  induction 1 as [| e l He _ IH]; cbn; [reflexivity |].
  rewrite He, IH. reflexivity.
Qed.

(** The first half logs the discovery first, and only for an untracked
    path. *)
Lemma size_probe_effects world file curdir h tracked_ s :
  exists rest,
    effects (size_probe world file curdir h tracked_ s) =
      (if tracked_ then rest
       else Log INFO (MNewFile (name file) curdir) :: rest) /\
    Forall no_discovery rest.
Proof.
  assert (Hs := state_ok_any always s Logic.I).
  destruct tracked_; unfold size_probe.
  - eexists. split; [reflexivity |].
    match goal with
    | |- Forall _ (effects (?m s)) =>
        assert (K : keeps (state_ok False 0 any_ref anything any_line always)
                          no_discovery m (fun _ => True))
    end.
    { eapply keeps_bind;
        [apply keeps_getitem; exact Logic.I | intros rec _].
      eapply keeps_bind;
        [apply keeps_os_stat_size;
           [intros; exact Logic.I | exact no_discovery_neutral | reflexivity]
        | intros size _].
      apply keeps_ret. exact Logic.I. }
    destruct (K s Hs) as [_ [H _]]. exact H.
  - step (log_run INFO (MNewFile (name file) curdir) s). cbn [app].
    eexists. split; [reflexivity |].
    match goal with
    | |- Forall _ (effects (?m s)) =>
        assert (K : keeps (state_ok False 0 any_ref anything any_line always)
                          no_discovery m (fun _ => True))
    end.
    { eapply keeps_bind;
        [apply keeps_os_stat_size;
           [intros; exact Logic.I | exact no_discovery_neutral | reflexivity]
        | intros size _].
      eapply keeps_bind;
        [apply keeps_setitem; exact Logic.I | intros _ _].
      apply keeps_ret. exact Logic.I. }
    destruct (K s Hs) as [_ [H _]]. exact H.
Qed.

Lemma scan_file_body_discovery world file word h curdir s :
  exists rest,
    effects (scan_file_body world file word h curdir s) =
      Log DEBUG (MScanning file word)
        :: (if dict_mem (path file) (dict_at h s) then rest
            else Log INFO (MNewFile (name file) curdir) :: rest) /\
    existsb is_discovery rest = false.
Proof.
  rewrite scan_file_body_halves.
  step (log_run DEBUG (MScanning file word) s).
  step (contains_run h (path file) s). cbn [app].
  rewrite bind_effects.
  destruct (size_probe_effects world file curdir h
              (dict_mem (path file) (dict_at h s)) s) as [rest [E Hrest]].
  rewrite E.
  set (tail := match out (size_probe world file curdir h
                            (dict_mem (path file) (dict_at h s)) s) with
               | Ok a =>
                   effects ((if a then ret h else reread world file word h)
                              (final (size_probe world file curdir h
                                        (dict_mem (path file) (dict_at h s)) s)))
               | Raise _ => []
               end).
  assert (Htail : Forall no_discovery tail).
  { unfold tail.
    destruct (out (size_probe world file curdir h
                     (dict_mem (path file) (dict_at h s)) s)) as [[] | e];
      [constructor | apply reread_no_discovery | constructor]. }
  exists (rest ++ tail)%list. split.
  - destruct (dict_mem (path file) (dict_at h s)); reflexivity.
  - apply no_discovery_existsb, Forall_app. split; assumption.
Qed.

Lemma history_cases history s :
  (exists h, history = Some h /\ dict_at h s <> []) \/ dict_of history s = [].
Proof.
  destruct history as [h |]; [| right; reflexivity].
  cbn. destruct (dict_at h s) eqn:E; [right; reflexivity |].
  left. exists h. split; [reflexivity | rewrite E; discriminate].
Qed.

Lemma dict_at_fresh s :
  dict_at (length (heap s)) (mkState (clock s) (exit_flag s) (heap s ++ [[]]))
    = [].
Proof.
  unfold dict_at. cbn [heap]. rewrite nth_alloc. apply nth_overflow. lia.
Qed.

(** X4: [scan_file] logs its debug record first, and a discovery exactly
    when the path is not a key of the history it is given (a missing or empty
    history has no keys); the discovery then comes second, before any probe,
    read or match, and no other discovery follows: one call never discovers
    a file twice, and never discovers a tracked file, whatever the file
    system answers. *)
Theorem scan_file_discovers_untracked_once :
  forall world file word history curdir s,
  exists rest,
    effects (scan_file world file word history curdir s) =
      Log DEBUG (MScanning file word)
        :: (if dict_mem (path file) (dict_of history s) then rest
            else Log INFO (MNewFile (name file) curdir) :: rest) /\
    existsb is_discovery rest = false.
Proof.
  intros world file word history curdir s. unfold scan_file.
  destruct (history_cases history s) as [[h [-> Hne]] | Hempty].
  - step (or_new_shared h s Hne). cbn [app dict_of].
    apply scan_file_body_discovery.
  - step (or_new_fresh history s Hempty). cbn [app].
    destruct (scan_file_body_discovery world file word (length (heap s)) curdir
                (mkState (clock s) (exit_flag s) (heap s ++ [[]])))
      as [rest [E Hrest]].
    rewrite dict_at_fresh in E. rewrite Hempty.
    exists rest. split; [exact E | exact Hrest].
Qed.

(** ** The record a scan leaves *)

Lemma getitem_missing r k s :
  dict_get k (dict_at r s) = None ->
  getitem r k s = mkRun (Raise KeyError) s [].
Proof.
  intros H. unfold getitem, bind, deref. cbn. unfold dict_at in H.
  rewrite H. reflexivity.
Qed.

Lemma reread_records world file word h t r :
  (h < length (heap t))%nat ->
  out (reread world file word h t) = Ok r ->
  r = h /\
  exists n size,
    dict_get (path file) (dict_at h (final (reread world file word h t)))
      = Some (n, size) /\
    st_size (world (pred (clock (final (reread world file word h t)))))
            (path file) = Ok size.
Proof.
  intros Hvalid. unfold reread.
  pose proof (os_path_abspath_run world (path file) t) as H1.
  destruct (abspath (world (clock t)) (path file)) as [p | e];
    [step H1 | stop H1; discriminate].
  fold (called world t).
  pose proof (open_readlines_run world p (called world t)) as H2.
  destruct (readlines (world (clock (called world t))) p) as [lines | e];
    [step H2 | stop H2; discriminate].
  fold (called world (called world t)).
  set (t2 := called world (called world t)).
  destruct (dict_get (path file) (dict_at h t2)) as [rec |] eqn:Eg;
    [| stop (getitem_missing h (path file) t2 Eg); discriminate].
  step (getitem_run h (path file) t2 rec Eg).
  destruct (scan_lines_pure word (name file) lines (fst rec) 0 t2)
    as [Hf [m Hm]].
  pose proof (run_eta (scan_lines word (name file) (fst rec) 0 lines t2)) as H4.
  rewrite Hf, Hm in H4. step H4.
  pose proof (os_stat_size_run world (path file) t2) as H5.
  destruct (st_size (world (clock t2)) (path file)) as [size | e] eqn:E5;
    [step H5 | stop H5; discriminate].
  fold (called world t2).
  step (setitem_run h (path file) (m, size) (called world t2)).
  cbn [ret out final effects clock heap exit_flag called].
  intros Hout. injection Hout as <-. split; [reflexivity |].
  exists m, size. split.
  - unfold dict_at at 1. cbn [heap].
    rewrite nth_replace_nth_same by exact Hvalid. apply dict_get_set.
  - cbn [pred]. exact E5.
Qed.

Lemma scan_file_body_records world file word h curdir s r :
  (h < length (heap s))%nat ->
  out (scan_file_body world file word h curdir s) = Ok r ->
  r = h /\
  exists n size,
    dict_get (path file)
      (dict_at h (final (scan_file_body world file word h curdir s)))
      = Some (n, size) /\
    st_size (world (pred (clock (final (scan_file_body world file word h
                                          curdir s)))))
            (path file) = Ok size.
Proof.
  intros Hvalid. rewrite scan_file_body_halves.
  step (log_run DEBUG (MScanning file word) s).
  step (contains_run h (path file) s).
  pose proof (os_stat_size_run world (path file) s) as Hs.
  fold (called world s) in Hs.
  destruct (dict_mem (path file) (dict_at h s)) eqn:Em; unfold size_probe.
  - destruct (dict_mem_get _ _ Em) as [rec Eg].
    destruct (st_size (world (clock s)) (path file)) as [size | e] eqn:E.
    + rewrite (bind_ok _ _ s (snd rec =? size) (called world s)
                 (sigfx (pending (world (clock s))) ++ [Stat (path file)]))
        by (step (getitem_run h (path file) s rec Eg); step Hs;
            cbn; rewrite app_nil_r; reflexivity).
      cbn [out final effects].
      destruct (snd rec =? size) eqn:Eq.
      * cbn [ret out final clock called pred]. intros Hout.
        injection Hout as <-. split; [reflexivity |].
        exists (fst rec), size. split; [| exact E].
        apply Z.eqb_eq in Eq. rewrite <- Eq.
        destruct rec; exact Eg.
      * apply reread_records. exact Hvalid.
    + rewrite (bind_raise _ _ s e (called world s)
                 (sigfx (pending (world (clock s))) ++ [Stat (path file)]))
        by (step (getitem_run h (path file) s rec Eg); stop Hs; reflexivity).
      discriminate.
  - destruct (st_size (world (clock s)) (path file)) as [size | e] eqn:E.
    + rewrite (bind_ok _ _ s false
                 (mkState (S (clock s))
                    (sigflag (pending (world (clock s))) (exit_flag s))
                    (replace_nth h
                       (dict_set (path file) (0, size) (dict_at h s)) (heap s)))
                 (Log INFO (MNewFile (name file) curdir)
                    :: sigfx (pending (world (clock s))) ++ [Stat (path file)]))
        by (step (log_run INFO (MNewFile (name file) curdir) s); step Hs;
            step (setitem_run h (path file) (0, size) (called world s));
            cbn; rewrite !app_nil_r; reflexivity).
      cbn [out final effects].
      apply reread_records. cbn [heap]. rewrite replace_nth_length.
      exact Hvalid.
    + rewrite (bind_raise _ _ s e (called world s)
                 (Log INFO (MNewFile (name file) curdir)
                    :: sigfx (pending (world (clock s))) ++ [Stat (path file)]))
        by (step (log_run INFO (MNewFile (name file) curdir) s); stop Hs;
            reflexivity).
      discriminate.
Qed.

Lemma scan_file_records world file word history curdir s r :
  out (scan_file world file word history curdir s) = Ok r ->
  exists n size,
    dict_get (path file)
      (dict_at r (final (scan_file world file word history curdir s)))
      = Some (n, size) /\
    st_size (world (pred (clock (final (scan_file world file word history
                                          curdir s)))))
            (path file) = Ok size.
Proof.
  unfold scan_file.
  destruct (history_cases history s) as [[h [-> Hne]] | Hempty].
  - step (or_new_shared h s Hne). intros Hout.
    destruct (scan_file_body_records world file word h curdir s r
                (dict_at_nonempty_valid h s Hne) Hout) as [-> H].
    exact H.
  - step (or_new_fresh history s Hempty). intros Hout.
    destruct (scan_file_body_records world file word (length (heap s)) curdir
                (mkState (clock s) (exit_flag s) (heap s ++ [[]])) r)
      as [-> H]; [cbn [heap]; rewrite length_app; cbn; lia | exact Hout |].
    exact H.
Qed.

Lemma scan_file_skip_run world file word h curdir s n size :
  dict_get (path file) (dict_at h s) = Some (n, size) ->
  st_size (world (clock s)) (path file) = Ok size ->
  scan_file world file word (Some h) curdir s =
  mkRun (Ok h) (called world s)
        (Log DEBUG (MScanning file word)
           :: sigfx (pending (world (clock s))) ++ [Stat (path file)]).
Proof.
  intros Hget Hsize. unfold scan_file.
  step (or_new_shared h s (dict_get_nonempty _ _ _ Hget)).
  rewrite scan_file_body_halves.
  step (log_run DEBUG (MScanning file word) s).
  step (contains_run h (path file) s).
  rewrite (dict_get_mem _ _ _ Hget). unfold size_probe.
  pose proof (os_stat_size_run world (path file) s) as Hs.
  fold (called world s) in Hs. rewrite Hsize in Hs.
  rewrite (bind_ok _ _ s true (called world s)
             (sigfx (pending (world (clock s))) ++ [Stat (path file)]))
    by (step (getitem_run h (path file) s (n, size) Hget); step Hs;
        cbn; rewrite Z.eqb_refl, app_nil_r; reflexivity).
  cbn. rewrite app_nil_r. reflexivity.
Qed.

(** X5: whenever [scan_file] returns, the dictionary it returns holds a
    record for the path of the file, and the size in that record is the
    answer of the last system call [scan_file] made, which is an [os.stat] of
    that path: the probe when the size was unchanged, the stat after the read
    otherwise. *)
Theorem scan_file_records_last_size :
  forall world file word history curdir s r,
    out (scan_file world file word history curdir s) = Ok r ->
    exists n size,
      dict_get (path file)
        (dict_at r (final (scan_file world file word history curdir s)))
        = Some (n, size) /\
      st_size (world (pred (clock (final (scan_file world file word history
                                            curdir s)))))
              (path file) = Ok size.
Proof. exact scan_file_records. Qed.

Lemma scan_file_records_last_size_witness :
  exists n size,
    dict_get "/d/app.log"
      (dict_at 0%nat (final (scan_file steady app_log "ERROR" None "/d" init)))
      = Some (n, size) /\
    st_size (steady (pred (clock (final (scan_file steady app_log "ERROR" None
                                           "/d" init)))))
            "/d/app.log" = Ok size.
Proof.
  apply (scan_file_records_last_size steady app_log "ERROR" None "/d" init
           0%nat).
  vm_compute. reflexivity.
Defined.

(** X6: two scans in a row.  When [scan_file] has returned and the size of
    the file at the next system call is the one its last [os.stat] saw, a
    second [scan_file] on the returned history only logs its debug record and
    probes the size: it reads nothing, reports nothing, and leaves every
    dictionary as the first scan left it. *)
Theorem rescan_of_unchanged_file_is_a_probe :
  forall world file word history curdir s h,
    let r1 := scan_file world file word history curdir s in
    out r1 = Ok h ->
    st_size (world (clock (final r1))) (path file) =
      st_size (world (pred (clock (final r1)))) (path file) ->
    scan_file world file word (Some h) curdir (final r1) =
    mkRun (Ok h) (called world (final r1))
          (Log DEBUG (MScanning file word)
             :: sigfx (pending (world (clock (final r1))))
             ++ [Stat (path file)]).
Proof.
  intros world file word history curdir s h r1 Hout Hsame.
  destruct (scan_file_records world file word history curdir s h Hout)
    as [n [size [Hget Hsize]]].
  fold r1 in Hget, Hsize. rewrite Hsize in Hsame.
  exact (scan_file_skip_run world file word h curdir (final r1) n size
           Hget Hsame).
Qed.

Lemma rescan_of_unchanged_file_is_a_probe_witness :
  scan_file steady app_log "ERROR" (Some 0%nat) "/d"
    (final (scan_file steady app_log "ERROR" None "/d" init)) =
  mkRun (Ok 0%nat)
        (called steady (final (scan_file steady app_log "ERROR" None "/d" init)))
        [Log DEBUG (MScanning app_log "ERROR"); Stat "/d/app.log"].
Proof.
  apply (rescan_of_unchanged_file_is_a_probe steady app_log "ERROR" None "/d"
           init 0%nat); vm_compute; reflexivity.
Defined.

(** ** A removal ends the cycle *)

Lemma filter_no_removal l : Forall no_removal l -> filter is_removal l = [].
Proof.
  induction 1 as [| e l He _ IH]; cbn; [reflexivity |].
  rewrite He. exact IH.
Qed.

Lemma listing_effects_no_removal world directory abs s :
  Forall no_removal (listing_effects world directory abs s).
Proof.
  unfold listing_effects.
  repeat (apply Forall_app; split); try apply sigfx_no_removal;
    repeat constructor.
Qed.

Lemma cycle_removal_raises world files word h directory s k :
  In (Log INFO (MRemoved k))
     (effects ((scan_files world files word h directory ;;
                reconcile h files) s)) ->
  out ((scan_files world files word h directory ;; reconcile h files) s)
    = Raise RuntimeError /\
  filter is_removal
    (effects ((scan_files world files word h directory ;;
               reconcile h files) s)) = [Log INFO (MRemoved k)].
Proof.
  pose proof (scan_files_no_removal world files word h directory s) as Hquiet.
  unfold bind.
  destruct (out (scan_files world files word h directory s)) as [[] | e];
    cbn [out final effects].
  - rewrite reconcile_run.
    destruct (find (stale files)
                (keys (dict_at h (final (scan_files world files word h
                                           directory s))))) as [k0 |];
      cbn [out final effects]; intros Hin; apply in_app_or in Hin;
      destruct Hin as [Hin | Hin];
      try (exfalso; exact (in_no_removal k _ Hquiet Hin)); [| destruct Hin].
    destruct Hin as [Hin | []]. injection Hin as <-.
    split; [reflexivity |].
    rewrite filter_app, (filter_no_removal _ Hquiet). reflexivity.
  - intros Hin. exfalso. exact (in_no_removal k _ Hquiet Hin).
Qed.

Lemma watch_dir_body_removal_raises world directory word ext h wait s k :
  In (Log INFO (MRemoved k))
     (effects (watch_dir_body world directory word ext h wait s)) ->
  out (watch_dir_body world directory word ext h wait s) = Raise RuntimeError /\
  filter is_removal (effects (watch_dir_body world directory word ext h wait s))
    = [Log INFO (MRemoved k)].
Proof.
  intros Hin.
  destruct (isdir (world (clock s)) directory) eqn:Hdir;
    [| exfalso; refine (in_no_removal k _ _ Hin);
       apply watch_dir_body_absent; left; exact Hdir].
  destruct (abspath (world (S (clock s))) directory) as [abs | e] eqn:Habs;
    [| exfalso; refine (in_no_removal k _ _ Hin);
       apply watch_dir_body_absent; right; left; exists e; exact Habs].
  destruct (listdir (world (S (S (clock s)))) directory) as [l | e] eqn:Hlist;
    [| exfalso; refine (in_no_removal k _ _ Hin);
       apply watch_dir_body_absent; right; right; exists e; exact Hlist].
  rewrite (watch_dir_body_present world directory word ext h wait s abs l
             Hdir Habs Hlist) in Hin |- *.
  cbn [out final effects] in Hin |- *.
  apply in_app_or in Hin. destruct Hin as [Hin | Hin].
  { exfalso. refine (in_no_removal k _ _ Hin).
    apply listing_effects_no_removal. }
  destruct (cycle_removal_raises world (listed ext directory l) word h
              directory (called world (called world (called world s))) k Hin)
    as [H1 H2].
  rewrite H1, filter_app, H2.
  rewrite (filter_no_removal _
             (listing_effects_no_removal world directory abs s)).
  split; reflexivity.
Qed.

(** X7: a removal ends the cycle.  (1) Whenever [watch_dir] logs the removal
    of a path, the call raises [RuntimeError] (the dictionary changed size
    under the loop that walks it) and that removal is the only one it logs:
    one call drops at most one entry, and a call that returns has dropped
    none.  (2) The reconciliation loop itself: at the first key, in dictionary
    order, that is the path of no listed entry, it logs the removal, pops
    that entry and raises; the later keys are not looked at. *)
Theorem removal_ends_the_cycle :
  forall world,
    (forall directory word ext history wait s k,
       In (Log INFO (MRemoved k))
          (effects (watch_dir world directory word ext history wait s)) ->
       out (watch_dir world directory word ext history wait s)
         = Raise RuntimeError /\
       filter is_removal
         (effects (watch_dir world directory word ext history wait s))
         = [Log INFO (MRemoved k)]) /\
    (forall h files s k,
       find (stale files) (keys (dict_at h s)) = Some k ->
       reconcile h files s =
       mkRun (Raise RuntimeError)
             (mkState (clock s) (exit_flag s)
                (replace_nth h (dict_remove k (dict_at h s)) (heap s)))
             [Log INFO (MRemoved k)]).
Proof.
  intros world. split.
  - intros directory word ext history wait s k. unfold watch_dir.
    destruct (history_cases history s) as [[h [-> Hne]] | Hempty].
    + step (or_new_shared h s Hne). cbn [app].
      apply watch_dir_body_removal_raises.
    + step (or_new_fresh history s Hempty). cbn [app].
      apply watch_dir_body_removal_raises.
  - intros h files s k E. rewrite reconcile_run, E. reflexivity.
Qed.

Lemma removal_ends_the_cycle_witness :
  out (watch_dir emptied "/d" "ERROR" None (Some 0%nat) 5 tracked)
    = Raise RuntimeError /\
  filter is_removal
    (effects (watch_dir emptied "/d" "ERROR" None (Some 0%nat) 5 tracked))
    = [Log INFO (MRemoved "/d/app.log")].
Proof.
  apply (proj1 (removal_ends_the_cycle emptied) "/d" "ERROR" None
           (Some 0%nat) 5 tracked "/d/app.log").
  vm_compute. tauto.
Defined.

(** ** The files a cycle touches *)

Lemma is_neutral_sigfx p : Forall is_neutral (sigfx p).
Proof. destruct p; repeat constructor. Qed.

Lemma listing_effects_neutral world directory abs s :
  Forall is_neutral (listing_effects world directory abs s).
Proof.
  unfold listing_effects.
  repeat (apply Forall_app; split); try apply is_neutral_sigfx;
    repeat constructor.
Qed.

(** A cycle that does not get to scanning names no file. *)
Lemma watch_dir_body_absent_neutral world directory word ext h wait s :
  isdir (world (clock s)) directory = false \/
  (exists e, abspath (world (S (clock s))) directory = Raise e) \/
  (exists e, listdir (world (S (S (clock s)))) directory = Raise e) ->
  Forall is_neutral (effects (watch_dir_body world directory word ext h wait s)).
Proof.
  intros Hcase. unfold watch_dir_body.
  pose proof (os_path_isdir_run world directory s) as H1.
  destruct (isdir (world (clock s)) directory) eqn:Hdir.
  - step H1. rewrite then_ret_run. cbn [effects]. fold (called world s).
    apply Forall_app. split.
    { apply Forall_app. split; [apply is_neutral_sigfx | repeat constructor]. }
    pose proof (os_path_abspath_run world directory (called world s)) as H2.
    cbn [called clock] in H2.
    destruct (abspath (world (S (clock s))) directory) as [abs | e] eqn:Habs.
    + step H2. apply Forall_app. split; [apply is_neutral_sigfx |].
      step (log_run DEBUG (MScanningDir abs) (called world (called world s))).
      apply Forall_app. split; [repeat constructor |].
      pose proof (list_files_run world directory ext
                    (called world (called world s))) as H3.
      cbn [called clock] in H3.
      destruct (listdir (world (S (S (clock s)))) directory) as [l | e]
        eqn:Hlist.
      * exfalso. destruct Hcase as [H | [[e H] | [e H]]]; discriminate.
      * stop H3. apply Forall_app. split;
          [apply is_neutral_sigfx | repeat constructor].
    + stop H2. apply is_neutral_sigfx.
  - step H1. rewrite then_ret_run. cbn [effects]. fold (called world s).
    apply Forall_app. split.
    { apply Forall_app. split; [apply is_neutral_sigfx | repeat constructor]. }
    step (log_run WARNING (MDirNotFound directory) (called world s)).
    apply Forall_app. split; [repeat constructor |].
    destruct (time_sleep_effects world wait (called world s)) as [-> | ->];
      [constructor |].
    apply Forall_app. split; [apply is_neutral_sigfx | repeat constructor].
Qed.

Lemma of_regular_entry_neutral world files e :
  neutral e = true -> of_regular_entry world files e.
Proof.
  destruct e as [l [] | | | | |]; cbn; try discriminate; intros; exact Logic.I.
Qed.

Lemma scan_files_of_regular_entry world files word h directory s :
  Forall (of_regular_entry world files)
         (effects (scan_files world files word h directory s)).
Proof.
  destruct (keeps_scan_files world False 0 any_ref anything any_line always
              (of_regular_entry world files)
              (fun _ _ => Logic.I) Logic.I (fun _ _ _ _ => Logic.I)
              (fun _ _ _ => Logic.I) (of_regular_entry_neutral world files)
              files word h directory Logic.I)
    with (s := s) as [_ [H _]].
  - intros f Hin Hd. unfold file_ok, anything, any_line. cbn.
    repeat split; try assumption.
    + exists f. repeat split; assumption.
    + exists f. repeat split; assumption.
    + intros t q Hq. exists f, t. repeat split; assumption.
    + intros i _. exists f. repeat split; assumption.
  - apply state_ok_any. exact Logic.I.
  - exact H.
Qed.

Lemma watch_dir_body_origin world directory word ext h wait s e :
  In e (effects (watch_dir_body world directory word ext h wait s)) ->
  neutral e = true \/ is_removal e = true \/
  exists l,
    listdir (world (S (S (clock s)))) directory = Ok l /\
    of_regular_entry world (listed ext directory l) e.
Proof.
  intros Hin.
  assert (Hn : forall l', Forall is_neutral l' -> In e l' -> neutral e = true).
  { intros l' Hl' He. rewrite Forall_forall in Hl'. exact (Hl' e He). }
  destruct (isdir (world (clock s)) directory) eqn:Hdir;
    [| left; refine (Hn _ _ Hin);
       apply watch_dir_body_absent_neutral; left; exact Hdir].
  destruct (abspath (world (S (clock s))) directory) as [abs | x] eqn:Habs;
    [| left; refine (Hn _ _ Hin);
       apply watch_dir_body_absent_neutral; right; left; exists x; exact Habs].
  destruct (listdir (world (S (S (clock s)))) directory) as [l | x] eqn:Hlist;
    [| left; refine (Hn _ _ Hin);
       apply watch_dir_body_absent_neutral; right; right; exists x;
       exact Hlist].
  rewrite (watch_dir_body_present world directory word ext h wait s abs l
             Hdir Habs Hlist) in Hin.
  cbn [effects] in Hin.
  apply in_app_or in Hin. destruct Hin as [Hin | Hin];
    [left; exact (Hn _ (listing_effects_neutral world directory abs s) Hin) |].
  rewrite bind_effects in Hin. apply in_app_or in Hin.
  destruct Hin as [Hin | Hin].
  - right. right. exists l. split; [reflexivity |].
    pose proof (scan_files_of_regular_entry world (listed ext directory l) word
                  h directory (called world (called world (called world s))))
      as H.
    rewrite Forall_forall in H. exact (H e Hin).
  - right. left.
    destruct (out (scan_files world (listed ext directory l) word h directory
                     (called world (called world (called world s)))))
      as [[] | x]; [| destruct Hin].
    rewrite reconcile_run in Hin.
    destruct (find (stale (listed ext directory l)) _) as [k |];
      cbn [effects] in Hin; [| destruct Hin].
    destruct Hin as [<- | []]. reflexivity.
Qed.

Lemma watch_dir_origin world directory word ext history wait s e :
  In e (effects (watch_dir world directory word ext history wait s)) ->
  neutral e = true \/ is_removal e = true \/
  exists l,
    listdir (world (S (S (clock s)))) directory = Ok l /\
    of_regular_entry world (listed ext directory l) e.
Proof.
  unfold watch_dir.
  destruct (history_cases history s) as [[h [-> Hne]] | Hempty].
  - step (or_new_shared h s Hne). cbn [app].
    apply watch_dir_body_origin.
  - step (or_new_fresh history s Hempty). cbn [app]. intros Hin.
    apply watch_dir_body_origin in Hin. exact Hin.
Qed.

Lemma listed_regular ext directory l f :
  In f (listed ext directory l) -> is_dir f = false ->
  In (name f, false) l /\ path f = join directory (name f).
Proof.
  unfold listed, entries. intros Hin Hd.
  apply filter_In in Hin. destruct Hin as [Hin _].
  apply in_map_iff in Hin. destruct Hin as [[n b] [<- Hnb]].
  cbn in Hd |- *. subst b. split; [exact Hnb | reflexivity].
Qed.

(** X8: the files one cycle touches.  Every [os.stat] that [watch_dir]
    makes, every file it opens and every discovery or match it logs is for
    an entry of the listing it took in the same call (its third system
    call): an entry that the listing reports as not being a directory, that
    passes the extension filter, and whose path is the directory joined with
    the entry's name.  Sub-directories, and files that are tracked but no
    longer listed, are never probed or read. *)
Theorem watch_dir_touches_listed_files_only :
  forall world directory word ext history wait s,
    let r := watch_dir world directory word ext history wait s in
    (forall p, In (Stat p) (effects r) ->
       exists l f,
         listdir (world (S (S (clock s)))) directory = Ok l /\
         In f (listed ext directory l) /\ In (name f, false) l /\
         p = join directory (name f)) /\
    (forall q, In (Open q) (effects r) ->
       exists l f t,
         listdir (world (S (S (clock s)))) directory = Ok l /\
         In f (listed ext directory l) /\ In (name f, false) l /\
         abspath (world t) (join directory (name f)) = Ok q) /\
    (forall lv n c, In (Log lv (MNewFile n c)) (effects r) ->
       exists l f,
         listdir (world (S (S (clock s)))) directory = Ok l /\
         In f (listed ext directory l) /\ In (n, false) l /\ name f = n) /\
    (forall lv w n i, In (Log lv (MFound w n i)) (effects r) ->
       exists l f,
         listdir (world (S (S (clock s)))) directory = Ok l /\
         In f (listed ext directory l) /\ In (n, false) l /\ name f = n).
Proof.
  intros world directory word ext history wait s r. subst r.
  repeat split.
  - intros p Hin.
    destruct (watch_dir_origin _ _ _ _ _ _ _ _ Hin)
      as [H | [H | [l [Hl [f [Hf [Hd <-]]]]]]]; try discriminate.
    destruct (listed_regular ext directory l f Hf Hd) as [H1 H2].
    exists l, f. repeat split; assumption.
  - intros q Hin.
    destruct (watch_dir_origin _ _ _ _ _ _ _ _ Hin)
      as [H | [H | [l [Hl [f [t [Hf [Hd Hq]]]]]]]]; try discriminate.
    destruct (listed_regular ext directory l f Hf Hd) as [H1 H2].
    exists l, f, t. rewrite <- H2. repeat split; assumption.
  - intros lv n c Hin.
    destruct (watch_dir_origin _ _ _ _ _ _ _ _ Hin)
      as [H | [H | [l [Hl [f [Hf [Hd <-]]]]]]]; try discriminate.
    destruct (listed_regular ext directory l f Hf Hd) as [H1 H2].
    exists l, f. repeat split; assumption.
  - intros lv w n i Hin.
    destruct (watch_dir_origin _ _ _ _ _ _ _ _ Hin)
      as [H | [H | [l [Hl [f [Hf [Hd <-]]]]]]]; try discriminate.
    destruct (listed_regular ext directory l f Hf Hd) as [H1 H2].
    exists l, f. repeat split; assumption.
Qed.

Lemma watch_dir_touches_listed_files_only_witness :
  exists l f,
    listdir (steady 2) "/d" = Ok l /\
    In f (listed None "/d" l) /\ In (name f, false) l /\
    "/d/app.log" = join "/d" (name f).
Proof.
  apply (proj1 (watch_dir_touches_listed_files_only steady "/d" "ERROR" None
                  None 5 init) "/d/app.log").
  vm_compute. tauto.
Defined.

(** ** What a scan keeps *)

Lemma grows_refl h s : grows h s s.
Proof. split; [lia | auto]. Qed.

Lemma grows_trans h s1 s2 s3 : grows h s1 s2 -> grows h s2 s3 -> grows h s1 s3.
Proof. intros [L1 K1] [L2 K2]. split; [lia | auto]. Qed.

Lemma grows_same_heap h s s' : heap s' = heap s -> grows h s s'.
Proof.
  intros H. unfold grows, dict_at. rewrite H. split; [lia | auto].
Qed.

Lemma grows_store h w d s :
  (forall k, In k (keys (dict_at w s)) -> In k (keys d)) ->
  grows h s (mkState (clock s) (exit_flag s) (replace_nth w d (heap s))).
Proof.
  intros Hd. split; cbn [heap]; [rewrite replace_nth_length; lia |].
  intros k Hk. unfold dict_at. cbn [heap].
  destruct (Nat.eq_dec w h) as [-> | Hne].
  - destruct (Nat.lt_ge_cases h (length (heap s))) as [Hlt | Hge].
    + rewrite nth_replace_nth_same by exact Hlt. apply Hd. exact Hk.
    + unfold dict_at in Hk. rewrite nth_overflow in Hk by exact Hge.
      destruct Hk.
  - rewrite nth_replace_nth_other by exact Hne. exact Hk.
Qed.

Lemma keys_dict_set_incl k v d x : In x (keys d) -> In x (keys (dict_set k v d)).
Proof.
  intros H. rewrite keys_dict_set.
  destruct (dict_mem k d); [exact H | apply in_or_app; left; exact H].
Qed.

Lemma keys_dict_set_new k v d : In k (keys (dict_set k v d)).
Proof.
  rewrite keys_dict_set. destruct (dict_mem k d) eqn:E.
  - apply dict_mem_In. exact E.
  - apply in_or_app. right. left. reflexivity.
Qed.

Lemma keys_dict_merge_old o :
  forall d x, In x (keys d) -> In x (keys (dict_merge o d)).
Proof.
  unfold dict_merge. induction o as [| kv o IH]; intros d x H; cbn;
    [exact H |].
  apply IH. apply keys_dict_set_incl. exact H.
Qed.

Lemma keys_dict_merge_new o :
  forall d x, In x (keys o) -> In x (keys (dict_merge o d)).
Proof.
  unfold dict_merge. induction o as [| kv o IH]; intros d x H; cbn in *;
    [destruct H |].
  destruct H as [<- | H].
  - apply (keys_dict_merge_old o). apply keys_dict_set_new.
  - apply IH. exact H.
Qed.

Section OnlyGrows.

Variable world : nat -> FS.
Variable h : ref.

Lemma only_grows_ret {A} (a : A) : only_grows h (ret a).
Proof. intros s. apply grows_refl. Qed.

Lemma only_grows_raise {A} (e : exn) : only_grows h (@raise A e).
Proof. intros s. apply grows_refl. Qed.

Lemma only_grows_bind {A B} (m : M A) (f : A -> M B) :
  only_grows h m -> (forall a, only_grows h (f a)) -> only_grows h (bind m f).
Proof.
  intros Hm Hf s. unfold bind. cbv zeta.
  destruct (out (m s)) as [a | e]; cbn [final];
    [eapply grows_trans; [apply Hm | apply Hf] | apply Hm].
Qed.

Lemma only_grows_log l m : only_grows h (log l m).
Proof. intros s. apply grows_refl. Qed.

Lemma only_grows_os_stat_size p : only_grows h (os_stat_size world p).
Proof.
  intros s. rewrite os_stat_size_run. apply grows_same_heap. reflexivity.
Qed.

Lemma only_grows_os_path_abspath p : only_grows h (os_path_abspath world p).
Proof.
  intros s. rewrite os_path_abspath_run. apply grows_same_heap. reflexivity.
Qed.

Lemma only_grows_open_readlines p : only_grows h (open_readlines world p).
Proof.
  intros s. rewrite open_readlines_run. apply grows_same_heap. reflexivity.
Qed.

Lemma only_grows_contains r k : only_grows h (contains r k).
Proof. intros s. rewrite contains_run. apply grows_refl. Qed.

Lemma only_grows_getitem r k : only_grows h (getitem r k).
Proof.
  intros s. destruct (dict_get k (dict_at r s)) as [v |] eqn:E.
  - rewrite (getitem_run r k s v E). apply grows_refl.
  - rewrite (getitem_missing r k s E). apply grows_refl.
Qed.

Lemma only_grows_setitem r k v : only_grows h (setitem r k v).
Proof.
  intros s. rewrite setitem_run. cbn [final]. apply grows_store.
  intros x. apply keys_dict_set_incl.
Qed.

Lemma only_grows_new_dict : only_grows h new_dict.
Proof.
  intros s. unfold new_dict. cbn [final]. split; cbn [heap].
  - rewrite length_app. lia.
  - intros k Hk. unfold dict_at. cbn [heap]. rewrite nth_alloc. exact Hk.
Qed.

Lemma only_grows_or_new history : only_grows h (or_new history).
Proof.
  destruct history as [r |]; cbn [or_new]; [| apply only_grows_new_dict].
  intros s. unfold bind, deref. cbn [out final].
  destruct (nth r (heap s) []); [apply only_grows_new_dict |].
  apply grows_refl.
Qed.

Lemma only_grows_update w r : only_grows h (update w r).
Proof.
  intros s. unfold update. destruct (Nat.eqb w r); [apply grows_refl |].
  step (deref_run r s). step (deref_run w s). unfold store. cbn [final].
  apply grows_store. intros x. apply keys_dict_merge_old.
Qed.

Lemma only_grows_scan_lines word file_name max_num j lines :
  only_grows h (scan_lines word file_name max_num j lines).
Proof.
  intros s.
  destruct (scan_lines_pure word file_name lines max_num j s) as [-> _].
  apply grows_refl.
Qed.

Lemma only_grows_scan_file file word history curdir :
  only_grows h (scan_file world file word history curdir).
Proof.
  unfold scan_file.
  apply only_grows_bind; [apply only_grows_or_new | intros w].
  unfold scan_file_body.
  apply only_grows_bind; [apply only_grows_log | intros _].
  apply only_grows_bind; [apply only_grows_contains | intros tracked_].
  apply only_grows_bind.
  - destruct tracked_.
    + apply only_grows_bind; [apply only_grows_getitem | intros rec].
      apply only_grows_bind; [apply only_grows_os_stat_size | intros size].
      apply only_grows_ret.
    + apply only_grows_bind; [apply only_grows_log | intros _].
      apply only_grows_bind; [apply only_grows_os_stat_size | intros size].
      apply only_grows_bind; [apply only_grows_setitem | intros _].
      apply only_grows_ret.
  - intros unchanged. destruct unchanged; [apply only_grows_ret |].
    apply only_grows_bind; [apply only_grows_os_path_abspath | intros p].
    apply only_grows_bind; [apply only_grows_open_readlines | intros lines].
    apply only_grows_bind; [apply only_grows_getitem | intros rec].
    apply only_grows_bind; [apply only_grows_scan_lines | intros m].
    apply only_grows_bind; [apply only_grows_os_stat_size | intros size].
    apply only_grows_bind; [apply only_grows_setitem | intros _].
    apply only_grows_ret.
Qed.

Lemma only_grows_scan_files files word w directory :
  only_grows h (scan_files world files word w directory).
Proof.
  induction files as [| file rest IH]; cbn [scan_files];
    [apply only_grows_ret |].
  apply only_grows_bind; [| intros _; exact IH].
  destruct (negb (is_dir file)); [| apply only_grows_ret].
  apply only_grows_bind; [apply only_grows_scan_file | intros r].
  apply only_grows_update.
Qed.

End OnlyGrows.

(** X12: a scan never forgets.  Whatever the file system answers, and
    whether the call returns or raises, [scan_file] and the loop of
    [watch_dir] over the listed files drop no key from any dictionary of the
    store and no dictionary from the store: entries leave a history only in
    the reconciliation loop. *)
Theorem scan_never_forgets :
  forall world h k s,
    In k (keys (dict_at h s)) ->
    (forall file word history curdir,
       In k (keys (dict_at h (final (scan_file world file word history curdir
                                       s))))) /\
    (forall files word w directory,
       In k (keys (dict_at h (final (scan_files world files word w directory
                                       s))))).
Proof.
  intros world h k s Hk. split.
  - intros file word history curdir.
    destruct (only_grows_scan_file world h file word history curdir s)
      as [_ H].
    exact (H k Hk).
  - intros files word w directory.
    destruct (only_grows_scan_files world h files word w directory s)
      as [_ H].
    exact (H k Hk).
Qed.

Lemma scan_never_forgets_witness :
  out (scan_file vanishing app_log "ERROR" (Some 0%nat) "/d" tracked)
    = Raise FileNotFoundError /\
  In "/d/app.log"
     (keys (dict_at 0%nat (final (scan_file vanishing app_log "ERROR"
                                    (Some 0%nat) "/d" tracked)))).
Proof.
  split; [vm_compute; reflexivity |].
  apply (proj1 (scan_never_forgets vanishing 0%nat "/d/app.log" tracked
                  ltac:(vm_compute; tauto))).
Defined.

(** ** What a returned cycle has tracked *)

Lemma bind_out_ok {A B} (m : M A) (f : A -> M B) s b :
  out (bind m f s) = Ok b ->
  exists a, out (m s) = Ok a /\ out (f a (final (m s))) = Ok b.
Proof.
  unfold bind. cbv zeta. destruct (out (m s)) as [a | e]; cbn [out];
    [| discriminate].
  intros H. exists a. split; [reflexivity | exact H].
Qed.

Lemma bind_final_ok {A B} (m : M A) (f : A -> M B) s a :
  out (m s) = Ok a -> final (bind m f s) = final (f a (final (m s))).
Proof. intros H. unfold bind. cbv zeta. rewrite H. reflexivity. Qed.

Lemma update_tracks h r k s :
  (h < length (heap s))%nat ->
  In k (keys (dict_at r s)) ->
  In k (keys (dict_at h (final (update h r s)))).
Proof.
  intros Hvalid Hk. unfold update.
  destruct (Nat.eqb_spec h r) as [-> | Hne]; [exact Hk |].
  step (deref_run r s). step (deref_run h s). unfold store. cbn [final].
  unfold dict_at at 1. cbn [heap].
  rewrite nth_replace_nth_same by exact Hvalid.
  apply keys_dict_merge_new. exact Hk.
Qed.

Lemma scan_files_tracks world word h directory files :
  forall s,
    (h < length (heap s))%nat ->
    out (scan_files world files word h directory s) = Ok tt ->
    forall f, In f files -> is_dir f = false ->
      In (path f)
         (keys (dict_at h (final (scan_files world files word h directory s)))).
Proof.
  induction files as [| file rest IH]; intros s Hvalid Hout f Hin Hd;
    [destruct Hin |].
  cbn [scan_files] in Hout |- *.
  apply bind_out_ok in Hout. destruct Hout as [[] [E1 Hout]].
  rewrite (bind_final_ok _ _ _ _ E1).
  match type of E1 with
  | out (?m s) = _ => assert (Hone : grows h s (final (m s)))
  end.
  { destruct (negb (is_dir file)); [| apply grows_refl].
    apply only_grows_bind; [apply only_grows_scan_file | intros r].
    apply only_grows_update. }
  destruct Hin as [<- | Hin].
  - match goal with
    | |- In _ (keys (dict_at h (final (scan_files _ _ _ _ _ ?s1)))) =>
        destruct (only_grows_scan_files world h rest word h directory s1)
          as [_ Hkeep]
    end.
    apply Hkeep. clear Hkeep Hout Hone.
    rewrite Hd in E1 |- *. cbn [negb] in E1 |- *.
    apply bind_out_ok in E1. destruct E1 as [r [E2 _]].
    rewrite (bind_final_ok _ _ _ _ E2).
    destruct (scan_file_records world file word (Some h) directory s r E2)
      as [n [size [Hget _]]].
    apply update_tracks.
    + destruct (only_grows_scan_file world h file word (Some h) directory s)
        as [HL _].
      exact (Nat.lt_le_trans _ _ _ Hvalid HL).
    + apply dict_mem_In. exact (dict_get_mem _ _ _ Hget).
  - apply IH; [destruct Hone as [HL _];
               exact (Nat.lt_le_trans _ _ _ Hvalid HL)
              | exact Hout | exact Hin | exact Hd].
Qed.

Lemma reconcile_returns h files s :
  out (reconcile h files s) = Ok tt ->
  final (reconcile h files s) = s /\
  forall k, In k (keys (dict_at h s)) -> In k (map path files).
Proof.
  rewrite reconcile_run.
  destruct (find (stale files) (keys (dict_at h s))) as [k0 |] eqn:E;
    cbn [out final]; [discriminate |].
  intros _. split; [reflexivity |].
  intros k Hk. pose proof (find_none _ _ E k Hk) as Hs.
  unfold stale in Hs. apply negb_false_iff in Hs.
  apply existsb_exists in Hs. destruct Hs as [x [Hx Heq]].
  apply String.eqb_eq in Heq. subst x. exact Hx.
Qed.

Lemma cycle_tracks world files word h directory s :
  (h < length (heap s))%nat ->
  out ((scan_files world files word h directory ;; reconcile h files) s)
    = Ok tt ->
  (forall f, In f files -> is_dir f = false ->
     In (path f)
        (keys (dict_at h (final ((scan_files world files word h directory ;;
                                  reconcile h files) s))))) /\
  (forall k,
     In k (keys (dict_at h (final ((scan_files world files word h directory ;;
                                    reconcile h files) s)))) ->
     In k (map path files)).
Proof.
  intros Hvalid. unfold bind. cbv zeta.
  pose proof (scan_files_tracks world word h directory files s Hvalid) as Ht.
  destruct (out (scan_files world files word h directory s)) as [[] | e];
    cbn [out final]; [| discriminate].
  intros Hrec. destruct (reconcile_returns h files _ Hrec) as [-> Hall].
  split; [exact (Ht eq_refl) | exact Hall].
Qed.

(** A cycle over a directory that exists returns only if the directory
    could be resolved and listed. *)
Lemma watch_dir_body_listed world directory word ext h wait s r :
  isdir (world (clock s)) directory = true ->
  out (watch_dir_body world directory word ext h wait s) = Ok r ->
  exists abs l,
    abspath (world (S (clock s))) directory = Ok abs /\
    listdir (world (S (S (clock s)))) directory = Ok l.
Proof.
  intros Hdir.
  destruct (abspath (world (S (clock s))) directory) as [abs | e] eqn:Habs.
  - destruct (listdir (world (S (S (clock s)))) directory) as [l | e]
      eqn:Hlist; [intros _; exists abs, l; split; reflexivity |].
    unfold watch_dir_body.
    pose proof (os_path_isdir_run world directory s) as H1.
    rewrite Hdir in H1. step H1. rewrite then_ret_run. cbn [out].
    fold (called world s).
    pose proof (os_path_abspath_run world directory (called world s)) as H2.
    cbn [called clock] in H2. rewrite Habs in H2. step H2.
    step (log_run DEBUG (MScanningDir abs) (called world (called world s))).
    pose proof (list_files_run world directory ext
                  (called world (called world s))) as H3.
    cbn [called clock] in H3. rewrite Hlist in H3. stop H3. discriminate.
  - unfold watch_dir_body.
    pose proof (os_path_isdir_run world directory s) as H1.
    rewrite Hdir in H1. step H1. rewrite then_ret_run. cbn [out].
    fold (called world s).
    pose proof (os_path_abspath_run world directory (called world s)) as H2.
    cbn [called clock] in H2. rewrite Habs in H2. stop H2. discriminate.
Qed.

Lemma watch_dir_body_tracks world directory word ext h wait s r :
  (h < length (heap s))%nat ->
  isdir (world (clock s)) directory = true ->
  out (watch_dir_body world directory word ext h wait s) = Ok r ->
  r = h /\
  exists l,
    listdir (world (S (S (clock s)))) directory = Ok l /\
    (forall f, In f (listed ext directory l) -> is_dir f = false ->
       In (path f)
          (keys (dict_at h (final (watch_dir_body world directory word ext h
                                     wait s))))) /\
    (forall k,
       In k (keys (dict_at h (final (watch_dir_body world directory word ext h
                                       wait s)))) ->
       In k (map path (listed ext directory l))).
Proof.
  intros Hvalid Hdir Hout.
  destruct (watch_dir_body_listed world directory word ext h wait s r Hdir Hout)
    as [abs [l [Habs Hlist]]].
  rewrite (watch_dir_body_present world directory word ext h wait s abs l
             Hdir Habs Hlist) in Hout |- *.
  cbn [out final] in Hout |- *.
  pose proof (cycle_tracks world (listed ext directory l) word h directory
                (called world (called world (called world s))) Hvalid) as Hc.
  destruct (out ((scan_files world (listed ext directory l) word h directory ;;
                  reconcile h (listed ext directory l))
                   (called world (called world (called world s)))))
    as [[] | e]; [| discriminate].
  injection Hout as <-. split; [reflexivity |].
  exists l. split; [exact Hlist | exact (Hc eq_refl)].
Qed.

(** X11: what a returned cycle has tracked.  When the directory exists and
    [watch_dir] returns, it has listed the directory (its third system call)
    and the keys of the history it returns are paths of that listing: every
    listed entry that is not a directory and passes the extension filter is
    a key, and every key is the path of a listed entry that passes the
    filter. *)
Theorem returned_cycle_tracks_the_listing :
  forall world directory word ext history wait s h,
    isdir (world (clock s)) directory = true ->
    out (watch_dir world directory word ext history wait s) = Ok h ->
    exists l,
      listdir (world (S (S (clock s)))) directory = Ok l /\
      (forall f, In f (listed ext directory l) -> is_dir f = false ->
         In (path f)
            (keys (dict_at h (final (watch_dir world directory word ext
                                       history wait s))))) /\
      (forall k,
         In k (keys (dict_at h (final (watch_dir world directory word ext
                                         history wait s)))) ->
         In k (map path (listed ext directory l))).
Proof.
  intros world directory word ext history wait s h Hdir. unfold watch_dir.
  destruct (history_cases history s) as [[w [-> Hne]] | Hempty].
  - step (or_new_shared w s Hne). intros Hout.
    destruct (watch_dir_body_tracks world directory word ext w wait s h
                (dict_at_nonempty_valid w s Hne) Hdir Hout) as [-> H].
    exact H.
  - step (or_new_fresh history s Hempty). intros Hout.
    destruct (watch_dir_body_tracks world directory word ext (length (heap s))
                wait (mkState (clock s) (exit_flag s) (heap s ++ [[]])) h)
      as [-> H];
      [cbn [heap]; rewrite length_app; cbn; lia | exact Hdir | exact Hout |].
    exact H.
Qed.

Lemma returned_cycle_tracks_the_listing_witness :
  exists l,
    listdir (steady 2) "/d" = Ok l /\
    (forall f, In f (listed None "/d" l) -> is_dir f = false ->
       In (path f)
          (keys (dict_at 0%nat (final (watch_dir steady "/d" "ERROR" None None 5
                                         init))))) /\
    (forall k,
       In k (keys (dict_at 0%nat (final (watch_dir steady "/d" "ERROR" None
                                           None 5 init)))) ->
       In k (map path (listed None "/d" l))).
Proof.
  apply (returned_cycle_tracks_the_listing steady "/d" "ERROR" None None 5 init
           0%nat); vm_compute; reflexivity.
Defined.

(** ** Leaving the loop *)

Lemma flag_has_cause_tick world c b :
  flag_has_cause world c b ->
  flag_has_cause world (S c) (sigflag (pending (world c)) b).
Proof.
  unfold flag_has_cause. intros H Hb.
  destruct (pending (world c)) as [sg |] eqn:E; cbn in Hb.
  - exists c. split; [lia | rewrite E; discriminate].
  - destruct (H Hb) as [t [Ht Hp]]. exists t. split; [lia | exact Hp].
Qed.

Lemma main_flag_has_cause world start_time args n :
  flag_has_cause world
    (clock (final (main world start_time args n init)))
    (exit_flag (final (main world start_time args n init))).
Proof.
  destruct (keeps_main world False 0 any_ref anything any_line
              (flag_has_cause world) any_effect
              (fun _ _ => Logic.I) Logic.I (fun _ _ _ _ => Logic.I)
              (flag_has_cause_tick world) (fun _ _ => Logic.I)
              (fun _ _ => Logic.I) start_time args n
              (fun t d f _ _ => file_ok_any world f (magic args) d)
              init)
    as [[_ [_ H]] _]; [| exact H].
  apply state_ok_any. intros Hb. discriminate Hb.
Qed.

Lemma poll_loop_true_flag world args history n :
  forall s,
    out (poll_loop world n args history s) = Ok true ->
    exit_flag (final (poll_loop world n args history s)) = true.
Proof.
  induction n as [| n IH]; intros s; destruct (exit_flag s) eqn:E.
  - rewrite (poll_loop_exit world _ args history s E). intros _. exact E.
  - cbn. unfold bind, get_exit_flag. cbn. rewrite E. cbn. discriminate.
  - rewrite (poll_loop_exit world _ args history s E). intros _. exact E.
  - rewrite (poll_loop_continue world n args history s E). unfold bind.
    destruct (out (poll_iteration world args history s)) as [[] | e];
      cbn [out final]; [apply IH | discriminate].
Qed.

Lemma poll_loop_returns world args history n :
  sleep_granted world (interval args) ->
  forall s, exists b, out (poll_loop world n args history s) = Ok b.
Proof.
  intros Hi. induction n as [| n IH]; intros s;
    destruct (exit_flag s) eqn:E.
  - exists true. rewrite (poll_loop_exit world _ args history s E).
    reflexivity.
  - exists false. cbn. unfold bind, get_exit_flag. cbn. rewrite E.
    reflexivity.
  - exists true. rewrite (poll_loop_exit world _ args history s E).
    reflexivity.
  - rewrite (poll_loop_continue world n args history s E). unfold bind.
    rewrite (poll_iteration_returns world args history s Hi).
    cbn [out]. apply IH.
Qed.

Lemma main_loop_run world start_time args n :
  main world start_time args n init =
  mkRun (out ((exited <- poll_loop world n args 0%nat ;;
               if exited then shutdown world start_time ;; ret true
               else ret false) started))
        (final ((exited <- poll_loop world n args 0%nat ;;
                 if exited then shutdown world start_time ;; ret true
                 else ret false) started))
        (Log INFO (MBanner "Starting")
           :: effects ((exited <- poll_loop world n args 0%nat ;;
                        if exited then shutdown world start_time ;; ret true
                        else ret false) started)).
Proof.
  unfold main.
  step (log_run INFO (MBanner "Starting") init).
  rewrite (bind_ok _ _ init 0%nat started []) by reflexivity.
  reflexivity.
Qed.

Lemma main_out_false world start_time args n :
  out (poll_loop world n args 0%nat started) = Ok false ->
  out (main world start_time args n init) = Ok false.
Proof.
  intros H. rewrite main_loop_run. cbn [out]. unfold bind at 1.
  rewrite H. reflexivity.
Qed.

Lemma main_out_true world start_time args n :
  out (main world start_time args n init) = Ok true ->
  exit_flag (final (main world start_time args n init)) = true.
Proof.
  rewrite main_loop_run. cbn [out final]. unfold bind at 1 3.
  pose proof (poll_loop_true_flag world args 0%nat n started) as Hflag.
  destruct (out (poll_loop world n args 0%nat started)) as [[|] | e];
    cbn [out final]; [| discriminate | discriminate].
  intros _. specialize (Hflag eq_refl).
  set (s := final (poll_loop world n args 0%nat started)) in *.
  unfold shutdown.
  rewrite (bind_ok _ _ s tt
             (mkState (S (clock s))
                (sigflag (pending (world (clock s))) (exit_flag s)) (heap s))
             (Log INFO (MBanner "Exiting")
                :: sigfx (pending (world (clock s)))
                ++ [Log INFO (MUptime (time (world (clock s)) - start_time))]))
    by (step (log_run INFO (MBanner "Exiting") s);
        step (time_time_run world s); rewrite log_run; reflexivity).
  cbn. rewrite Hflag. destruct (pending (world (clock s))); reflexivity.
Qed.

(** X9: the loop is left normally only through a signal.  (1) When [main]
    gets past its loop and returns, a signal was pending at one of the system
    calls it made.  (2) With an interval that [time.sleep] accepts
    ([0 <= interval <= 9223372036]) and that the operating system grants at
    every instant, and no signal ever pending, [main] is still in its loop
    after any number of turns. *)
Theorem loop_exit_needs_a_signal :
  forall world start_time args n,
    (out (main world start_time args n init) = Ok true ->
     exists t,
       (t < clock (final (main world start_time args n init)))%nat /\
       pending (world t) <> None) /\
    (sleep_granted world (interval args) ->
     (forall t, pending (world t) = None) ->
     out (main world start_time args n init) = Ok false).
Proof.
  intros world start_time args n.
  assert (H1 : out (main world start_time args n init) = Ok true ->
               exists t,
                 (t < clock (final (main world start_time args n init)))%nat /\
                 pending (world t) <> None).
  { intros Hout.
    exact (main_flag_has_cause world start_time args n
             (main_out_true world start_time args n Hout)). }
  split; [exact H1 |].
  intros Hi Hquiet.
  destruct (poll_loop_returns world args 0%nat n Hi started) as [[|] Hb].
  - exfalso.
    destruct (main_after_exit world start_time args n Hb) as [Hout _].
    destruct (H1 Hout) as [t [_ Hp]]. exact (Hp (Hquiet t)).
  - apply main_out_false. exact Hb.
Qed.

Lemma loop_exit_needs_a_signal_witness :
  (exists t,
     (t < clock (final (main interrupted 0 watch_d 5 init)))%nat /\
     pending (interrupted t) <> None) /\
  out (main steady 0 watch_d 5 init) = Ok false.
Proof.
  destruct (loop_exit_needs_a_signal interrupted 0 watch_d 5) as [H1 _].
  destruct (loop_exit_needs_a_signal steady 0 watch_d 5) as [_ H2].
  split.
  - apply H1. vm_compute. reflexivity.
  - apply H2.
    + split; [unfold sleep_max; cbn; lia | intros t; reflexivity].
    + intros t. reflexivity.
Defined.

(** ** An interval that [time.sleep] refuses *)

(** X10: an [--interval] that [time.sleep] refuses, that is one outside
    [0 .. 9223372036].  The [time.sleep] of the loop is outside the [try], so
    [main] ends with the exception of the first sleep: [ValueError] for a
    negative interval down to -9223372036, [OverflowError] for one below that
    or above 9223372036.  [main] logs the starting banner, runs the [try]
    block once (logging at error level what that block raised, if it
    raised), and then raises, for any number of turns, without ever sleeping
    the interval or reaching the exit banner, even when a signal has set the
    flag meanwhile. *)
Theorem refused_interval_raises_after_first_poll :
  forall world start_time args n,
    interval args < 0 \/ sleep_max < interval args ->
    let first :=
      try_except (poll world args 0%nat) (fun e => log ERROR (MExn e)) started
    in
    main world start_time args (S n) init =
    mkRun (Raise (if (interval args <? - sleep_max)
                     || (sleep_max <? interval args)
                  then OverflowError else ValueError))
          (final first)
          (Log INFO (MBanner "Starting") :: effects first).
Proof.
  intros world start_time args n Hi first.
  rewrite main_loop_run.
  assert (Hloop : poll_loop world (S n) args 0%nat started =
                  mkRun (Raise (if (interval args <? - sleep_max)
                                   || (sleep_max <? interval args)
                                then OverflowError else ValueError))
                        (final first) (effects first)).
  { rewrite (poll_loop_continue world n args 0%nat started eq_refl).
    unfold bind.
    rewrite (poll_iteration_refused world args 0%nat started Hi).
    reflexivity. }
  rewrite (bind_raise _ _ started _ (final first) (effects first) Hloop).
  reflexivity.
Qed.

Lemma refused_interval_raises_after_first_poll_witness :
  out (main steady 0 (mkArgs "/d" None (-1) "ERROR") 3 init) =
    Raise ValueError /\
  out (main steady 0 (mkArgs "/d" None 10000000000 "ERROR") 3 init) =
    Raise OverflowError.
Proof.
  split.
  - rewrite (refused_interval_raises_after_first_poll steady 0
               (mkArgs "/d" None (-1) "ERROR") 2);
      [reflexivity | left; cbn; lia].
  - rewrite (refused_interval_raises_after_first_poll steady 0
               (mkArgs "/d" None 10000000000 "ERROR") 2);
      [reflexivity | right; unfold sleep_max; cbn; lia].
Defined.

(** ** The first line of a file *)

Lemma scan_lines_from_start word file_name max_num lines s :
  0 <= max_num ->
  scan_lines word file_name max_num 0 lines s =
  mkRun (Ok (last (reported word lines) max_num)) s
        (map (found word file_name) (reported word lines)).
Proof.
  intros Hm.
  destruct lines as [| l0 [| l1 rest]]; cbn [scan_lines reported].
  - reflexivity.
  - replace (max_num <? 0 - 1) with false by (symmetry; apply Z.ltb_ge; lia).
    reflexivity.
  - replace (max_num <? 0 - 1) with false by (symmetry; apply Z.ltb_ge; lia).
    cbn [andb orb Z.eqb]. change (0 + 1 =? 1) with true. rewrite orb_true_r.
    step (log_run INFO (MFound word file_name (0 + 1 - 1)) s).
    rewrite (scan_lines_later word file_name rest (0 + 1 - 1) (0 + 1 + 1) s)
      by lia.
    cbn [out final effects map app]. rewrite last_cons. reflexivity.
Qed.

Lemma filter_match_found word file_name l :
  filter is_match (map (found word file_name) l) =
  map (found word file_name) l.
Proof. induction l as [| i l IH]; cbn; [| rewrite IH]; reflexivity. Qed.

Lemma no_read_found word file_name l :
  existsb is_read (map (found word file_name) l) = false.
Proof. induction l as [| i l IH]; cbn; [reflexivity | exact IH]. Qed.

Lemma probe_no_match p q : filter is_match (sigfx p ++ [Stat q]) = [].
Proof. destruct p; reflexivity. Qed.

Lemma probe_no_read p q : existsb is_read (sigfx p ++ [Stat q]) = false.
Proof. destruct p; reflexivity. Qed.

Lemma sigfx_no_match p : filter is_match (sigfx p) = [].
Proof. destruct p; reflexivity. Qed.

Lemma sigfx_no_read p : existsb is_read (sigfx p) = false.
Proof. destruct p; reflexivity. Qed.

Lemma matches_after_prefix (X pre l : list effect) :
  filter is_match pre = [] -> existsb is_read pre = false ->
  filter is_match l = (if existsb is_read l then X else []) ->
  filter is_match (pre ++ l) = (if existsb is_read (pre ++ l) then X else []).
Proof.
  intros H1 H2 H3. rewrite filter_app, existsb_app, H1, H2. exact H3.
Qed.

Lemma size_probe_tracked_run world file curdir h s rec :
  dict_get (path file) (dict_at h s) = Some rec ->
  size_probe world file curdir h true s =
  mkRun (match st_size (world (clock s)) (path file) with
         | Ok size => Ok (snd rec =? size)
         | Raise e => Raise e
         end)
        (called world s)
        (sigfx (pending (world (clock s))) ++ [Stat (path file)]).
Proof.
  intros Hget. unfold size_probe.
  step (getitem_run h (path file) s rec Hget).
  pose proof (os_stat_size_run world (path file) s) as Hs.
  fold (called world s) in Hs.
  destruct (st_size (world (clock s)) (path file)) as [size | e];
    [step Hs; cbn; rewrite app_nil_r; reflexivity | stop Hs; reflexivity].
Qed.

Lemma size_probe_new_run world file curdir h s :
  size_probe world file curdir h false s =
  mkRun (match st_size (world (clock s)) (path file) with
         | Ok _ => Ok false
         | Raise e => Raise e
         end)
        (match st_size (world (clock s)) (path file) with
         | Ok size =>
             mkState (S (clock s))
               (sigflag (pending (world (clock s))) (exit_flag s))
               (replace_nth h (dict_set (path file) (0, size) (dict_at h s))
                  (heap s))
         | Raise _ => called world s
         end)
        (Log INFO (MNewFile (name file) curdir)
           :: sigfx (pending (world (clock s))) ++ [Stat (path file)]).
Proof.
  unfold size_probe.
  step (log_run INFO (MNewFile (name file) curdir) s).
  pose proof (os_stat_size_run world (path file) s) as Hs.
  fold (called world s) in Hs.
  destruct (st_size (world (clock s)) (path file)) as [size | e];
    [step Hs | stop Hs; reflexivity].
  step (setitem_run h (path file) (0, size) (called world s)).
  cbn. rewrite !app_nil_r. reflexivity.
Qed.

(** A read that gets the lines of the file reports what the loop reports
    from index 0, the recorded line being non-negative. *)
Lemma reread_matches world file word h t p lines rec :
  abspath (world (clock t)) (path file) = Ok p ->
  readlines (world (S (clock t))) p = Ok lines ->
  dict_get (path file) (dict_at h t) = Some rec ->
  0 <= fst rec ->
  filter is_match (effects (reread world file word h t)) =
    map (found word (name file)) (reported word lines) /\
  existsb is_read (effects (reread world file word h t)) = true.
Proof.
  intros Habs Hread Hget Hrec. unfold reread.
  pose proof (os_path_abspath_run world (path file) t) as H1.
  rewrite Habs in H1. step H1. fold (called world t).
  pose proof (open_readlines_run world p (called world t)) as H2.
  cbn [called clock] in H2. rewrite Hread in H2. step H2.
  fold (called world t). fold (called world (called world t)).
  set (t2 := called world (called world t)).
  assert (Hget2 : dict_get (path file) (dict_at h t2) = Some rec)
    by exact Hget.
  step (getitem_run h (path file) t2 rec Hget2).
  step (scan_lines_from_start word (name file) (fst rec) lines t2 Hrec).
  set (tail := effects _).
  assert (Htail : filter is_match tail = [] /\ existsb is_read tail = false).
  { unfold tail.
    pose proof (os_stat_size_run world (path file) t2) as H5.
    destruct (st_size (world (clock t2)) (path file)) as [size | e];
      [step H5 | stop H5; split; [apply probe_no_match | apply probe_no_read]].
    match goal with
    | |- context [setitem h (path file) ?v] =>
        step (setitem_run h (path file) v
                (mkState (S (clock t2))
                   (sigflag (pending (world (clock t2))) (exit_flag t2))
                   (heap t2)))
    end.
    cbn [ret effects app]. rewrite app_nil_r.
    split; [apply probe_no_match | apply probe_no_read]. }
  destruct Htail as [Hm Hr]. split.
  - rewrite !filter_app, !sigfx_no_match, Hm, filter_match_found.
    cbn [app filter is_match]. apply app_nil_r.
  - apply existsb_exists. exists (Open p). split; [| reflexivity].
    rewrite !in_app_iff. cbn. tauto.
Qed.

Lemma dict_get_nonneg k d rec :
  Forall (fun kv : string * record => 0 <= fst (snd kv)) d ->
  dict_get k d = Some rec -> 0 <= fst rec.
Proof.
  induction 1 as [| [k' v'] d Hkv _ IH]; cbn; [discriminate |].
  destruct (String.eqb k k'); [| exact IH].
  intros H. injection H as <-. exact Hkv.
Qed.

Lemma scan_file_body_matches world file word h curdir s p lines :
  (h < length (heap s))%nat ->
  (forall rec, dict_get (path file) (dict_at h s) = Some rec -> 0 <= fst rec) ->
  abspath (world (S (clock s))) (path file) = Ok p ->
  readlines (world (S (S (clock s)))) p = Ok lines ->
  filter is_match (effects (scan_file_body world file word h curdir s)) =
    if existsb is_read (effects (scan_file_body world file word h curdir s))
    then map (found word (name file)) (reported word lines)
    else [].
Proof.
  intros Hvalid Hnonneg Habs Hread. rewrite scan_file_body_halves.
  step (log_run DEBUG (MScanning file word) s).
  step (contains_run h (path file) s). cbn [app].
  match goal with
  | |- filter _ (?a :: ?l) = _ =>
      change (a :: l) with ([a] ++ l)%list
  end.
  apply matches_after_prefix; [reflexivity | reflexivity |].
  destruct (dict_mem (path file) (dict_at h s)) eqn:Em.
  - destruct (dict_mem_get _ _ Em) as [rec Eg].
    pose proof (size_probe_tracked_run world file curdir h s rec Eg) as Hp.
    destruct (st_size (world (clock s)) (path file)) as [size | e];
      [step Hp | stop Hp; rewrite probe_no_match, probe_no_read; reflexivity].
    apply matches_after_prefix; [apply probe_no_match | apply probe_no_read |].
    destruct (snd rec =? size); [reflexivity |].
    destruct (reread_matches world file word h (called world s) p lines rec
                Habs Hread Eg (Hnonneg rec Eg)) as [-> ->].
    reflexivity.
  - pose proof (size_probe_new_run world file curdir h s) as Hp.
    destruct (st_size (world (clock s)) (path file)) as [size | e];
      [step Hp
      | stop Hp; cbn [filter is_match existsb is_read orb];
        rewrite probe_no_match, probe_no_read; reflexivity].
    match goal with
    | |- filter _ ((?a :: ?l) ++ ?l') = _ =>
        change ((a :: l) ++ l')%list with ([a] ++ (l ++ l'))%list
    end.
    apply matches_after_prefix; [reflexivity | reflexivity |].
    apply matches_after_prefix; [apply probe_no_match | apply probe_no_read |].
    match goal with
    | |- context [reread world file word h ?s1] =>
        assert (Hg : dict_get (path file) (dict_at h s1) = Some (0, size))
          by (unfold dict_at; cbn [heap];
              rewrite nth_replace_nth_same by exact Hvalid;
              apply dict_get_set);
        destruct (reread_matches world file word h s1 p lines (0, size)
                    Habs Hread Hg ltac:(cbn; lia)) as [-> ->]
    end.
    reflexivity.
Qed.

Lemma scan_file_matches world file word history curdir s p lines :
  lines_nonneg s ->
  abspath (world (S (clock s))) (path file) = Ok p ->
  readlines (world (S (S (clock s)))) p = Ok lines ->
  filter is_match (effects (scan_file world file word history curdir s)) =
    if existsb is_read (effects (scan_file world file word history curdir s))
    then map (found word (name file)) (reported word lines)
    else [].
Proof.
  intros Hs Habs Hread. unfold scan_file.
  destruct (history_cases history s) as [[h [-> Hne]] | Hempty].
  - step (or_new_shared h s Hne). cbn [app].
    apply (scan_file_body_matches world file word h curdir s p lines);
      [exact (dict_at_nonempty_valid h s Hne) | | exact Habs | exact Hread].
    intros rec. apply dict_get_nonneg. apply Hs.
  - step (or_new_fresh history s Hempty). cbn [app].
    apply (scan_file_body_matches world file word (length (heap s)) curdir
             (mkState (clock s) (exit_flag s) (heap s ++ [[]])) p lines);
      [cbn [heap]; rewrite length_app; cbn; lia | | exact Habs | exact Hread].
    rewrite dict_at_fresh. discriminate.
Qed.

(** C10: no match record is ever produced for the first line of a file.
    (1) Whatever history [scan_file] is given, in a store whose recorded
    lines are non-negative: when the read of the file yields the lines
    [first :: rest], the match records [scan_file] logs are, if it opens the
    file, "line 0" for the second line (the special-cased branch, whatever
    that line holds) followed by "line j - 1" for every line of index
    [j >= 2] that holds the word, and none if it does not open the file.
    Nothing depends on the first line, and a file of one line gives no
    record.  (2) [scan_file] keeps every recorded line non-negative and logs
    only matches with [i >= 0], whatever the world answers and whether it
    returns or raises, and (3) so does every run of [main], for any number
    of polls. *)
Theorem first_line_never_matched :
  (forall world file word history curdir s p first rest,
     lines_nonneg s ->
     abspath (world (S (clock s))) (path file) = Ok p ->
     readlines (world (S (S (clock s)))) p = Ok (first :: rest) ->
     filter is_match (effects (scan_file world file word history curdir s)) =
       if existsb is_read (effects (scan_file world file word history curdir s))
       then map (found word (name file))
                match rest with
                | [] => []
                | _ :: later => 0 :: later_matches word 2 later
                end
       else []) /\
  (forall world file word history curdir s,
     lines_nonneg s ->
     lines_nonneg (final (scan_file world file word history curdir s)) /\
     Forall match_nonneg (effects (scan_file world file word history curdir s))) /\
  (forall world start_time args n,
     lines_nonneg (final (main world start_time args n init)) /\
     Forall match_nonneg (effects (main world start_time args n init))).
Proof.
  split.
  { intros world file word history curdir s p first rest Hs Habs Hread.
    rewrite (scan_file_matches world file word history curdir s p
               (first :: rest) Hs Habs Hread).
    destruct rest; reflexivity. }
  split.
  - intros world file word history curdir s Hs.
    apply lines_nonneg_state_ok in Hs.
    destruct (keeps_scan_file world False 0 any_ref anything nonneg always
                match_nonneg (fun _ _ => Logic.I) (Z.le_refl 0) nonneg_scan
                (fun _ _ H => H) match_nonneg_neutral
                file word history curdir (fun _ _ => Logic.I)
                (match_nonneg_file world file word curdir) s Hs)
      as [H1 [H2 _]].
    split; [apply lines_nonneg_state_ok; exact H1 | exact H2].
  - intros world start_time args n.
    assert (Hs : state_ok False 0 any_ref anything nonneg always init).
    { apply lines_nonneg_state_ok. intros r. unfold dict_at. cbn.
      destruct r; constructor. }
    destruct (keeps_main world False 0 any_ref anything nonneg always
                match_nonneg (fun _ _ => Logic.I) (Z.le_refl 0) nonneg_scan
                (fun _ _ H => H) match_nonneg_neutral
                (fun _ _ => Logic.I) start_time args n
                (fun t d f _ _ => match_nonneg_file world f (magic args) d)
                init Hs)
      as [H1 [H2 _]].
    split; [apply lines_nonneg_state_ok; exact H1 | exact H2].
Qed.

Lemma first_line_never_matched_witness :
  filter is_match
    (effects (scan_file rewritten app_log "ERROR" (Some 0%nat) "/d" tracked)) =
    [Log INFO (MFound "ERROR" "app.log" 0);
     Log INFO (MFound "ERROR" "app.log" 1)] /\
  lines_nonneg (final (scan_file steady app_log "ERROR" (Some 0%nat) "/d"
                         tracked)) /\
  Forall match_nonneg (effects (main growing 0 watch_d 2 init)).
Proof.
  assert (Hs : lines_nonneg tracked).
  { intros r. unfold dict_at, tracked. cbn.
    destruct r as [| [| r]]; repeat constructor. cbn. lia. }
  destruct first_line_never_matched as [Hfirst [Hscan Hmain]].
  split; [| split; [apply Hscan; exact Hs | apply Hmain]].
  rewrite (Hfirst rewritten app_log "ERROR" (Some 0%nat) "/d" tracked
             "/d/app.log"
             "ERROR a" ["b"; "ERROR c"] Hs eq_refl eq_refl).
  vm_compute. reflexivity.
Defined.

(** ** Watching a directory that is not there *)





